(** * Event submission validation of dev-events-nextjs

    A shallow embedding of [src/app/api/events/route.ts]: the text, date,
    time and array normalizers, [validateAndSanitizeEvent], and the [POST]
    and [GET] handlers, with the properties the specification states of
    them.

    JavaScript strings are sequences of UTF-16 code units, so a string is a
    list of code units here.  Program text that is fixed in the source
    (field names, error messages) is kept as a Rocq [string]. *)

From Stdlib Require Import ZArith NArith Ascii String List Lia Bool DecimalString.
From stdpp Require Import base option list gmap strings.

Local Open Scope Z_scope.

(** ** JavaScript strings *)

Abbreviation jsstring := (list N) (only parsing).

(** The code units of an ASCII literal. *)
Definition js (s : string) : jsstring :=
  map N_of_ascii (list_ascii_of_string s).

Definition cu_eqb (a b : N) : bool := N.eqb a b.

Fixpoint jsstring_eqb (a b : jsstring) : bool :=
  match a, b with
  | [], [] => true
  | x :: a', y :: b' => cu_eqb x y && jsstring_eqb a' b'
  | _, _ => false
  end.

(** Truthiness of a string: [!s] holds of the empty string only. *)
Definition is_empty (s : jsstring) : bool :=
  match s with [] => true | _ => false end.

(** ECMAScript WhiteSpace and LineTerminator code points: what
    [String.prototype.trim] removes, what [\s] matches, and what [parseInt]
    skips. *)
Definition is_whitespace (c : N) : bool :=
  ((9 <=? c) && (c <=? 13) || (c =? 32) || (c =? 160) || (c =? 5760)
   || (8192 <=? c) && (c <=? 8202) || (c =? 8232) || (c =? 8233)
   || (c =? 8239) || (c =? 8287) || (c =? 12288) || (c =? 65279))%N.

Fixpoint trimStart (s : jsstring) : jsstring :=
  match s with
  | c :: s' => if is_whitespace c then trimStart s' else s
  | [] => []
  end.

Definition trimEnd (s : jsstring) : jsstring := rev (trimStart (rev s)).

(** [String.prototype.trim]. *)
Definition trim (s : jsstring) : jsstring := trimEnd (trimStart s).

Definition LT_SIGN : N := 60.
Definition GT_SIGN : N := 62.

Definition is_angle (c : N) : bool := (c =? LT_SIGN)%N || (c =? GT_SIGN)%N.

(** [s.replace(/[<>]/g, "")]. *)
Definition strip_angle (s : jsstring) : jsstring :=
  List.filter (fun c => negb (is_angle c)) s.

(** [s.slice(0, n)] for a length [n] that is not negative. *)
Definition slice0 (n : nat) (s : jsstring) : jsstring := take n s.

(** [s.includes(c)] for a one-unit needle. *)
Definition includes (c : N) (s : jsstring) : bool := existsb (cu_eqb c) s.

(** [s.split(c)] for a one-unit separator: the pieces between separators,
    in order; never empty. *)
Fixpoint split (sep : N) (s : jsstring) : list jsstring :=
  match s with
  | [] => [[]]
  | c :: s' =>
      if cu_eqb c sep then [] :: split sep s'
      else match split sep s' with
           | p :: ps => (c :: p) :: ps
           | [] => [[c]]
           end
  end.

(** ** The text sanitizer (route.ts, lines 24 to 44) *)

Inductive text_field : Type :=
| f_title | f_description | f_overview | f_venue | f_location | f_audience
| f_organizer.

Definition field_name (f : text_field) : string :=
  match f with
  | f_title => "title"
  | f_description => "description"
  | f_overview => "overview"
  | f_venue => "venue"
  | f_location => "location"
  | f_audience => "audience"
  | f_organizer => "organizer"
  end.

Definition maxLength (f : text_field) : nat :=
  match f with
  | f_title => 100
  | f_description => 1000
  | f_overview => 500
  | f_venue => 100
  | f_location => 150
  | f_audience => 150
  | f_organizer => 150
  end.

(** The keys of [TEXT_FIELD_LIMITS] in the order [Object.keys] lists them. *)
Definition TEXT_FIELD_LIMITS : list text_field :=
  [f_title; f_description; f_overview; f_venue; f_location; f_audience;
   f_organizer].

Definition sanitizePlainText (value : jsstring) (maxLength : nat) : jsstring :=
  let trimmed := trim value in
  if is_empty trimmed then []
  else slice0 maxLength (strip_angle trimmed).

(** ** Numbers

    A JavaScript number that is either [NaN] or an integer.  Only integers
    arise in this program: [parseInt] results and sums of them. *)

Inductive number : Type :=
| NaN
| Num (z : Z).

Definition isNaN (n : number) : bool :=
  match n with NaN => true | Num _ => false end.

(** [a > k], [a === k] and [a !== k] against an integer constant; every
    comparison with [NaN] is false, so [NaN !== k] is true. *)
Definition num_gtb (a : number) (k : Z) : bool :=
  match a with NaN => false | Num z => k <? z end.

Definition num_eqb (a : number) (k : Z) : bool :=
  match a with NaN => false | Num z => z =? k end.

Definition num_add (a : number) (k : Z) : number :=
  match a with NaN => NaN | Num z => Num (z + k) end.

Definition is_digit (c : N) : bool := ((48 <=? c) && (c <=? 57))%N.

Definition digit_value (c : N) : Z := Z.of_N c - 48.

(** The longest prefix of decimal digits, and what follows it. *)
Fixpoint span_digits (s : jsstring) : jsstring * jsstring :=
  match s with
  | c :: s' =>
      if is_digit c then let '(ds, r) := span_digits s' in (c :: ds, r)
      else ([], s)
  | [] => ([], [])
  end.

(** The value of a digit string, most significant digit first. *)
Definition digits_value (ds : jsstring) : Z :=
  fold_left (fun acc c => 10 * acc + digit_value c) ds 0.

Definition PLUS_SIGN : N := 43.
Definition MINUS_SIGN : N := 45.

(** [parseInt(s, 10)]: leading white space is skipped, a sign is read, and
    the longest run of digits that follows is the value; [NaN] when that
    run is empty.  The value is the exact integer (JavaScript rounds it to
    a double above 2^53). *)
Definition parseInt (s : jsstring) : number :=
  let s := trimStart s in
  let '(sign, s) :=
    match s with
    | c :: s' =>
        if (c =? MINUS_SIGN)%N then (-1, s')
        else if (c =? PLUS_SIGN)%N then (1, s')
        else (1, s)
    | [] => (1, s)
    end in
  match fst (span_digits s) with
  | [] => NaN
  | ds => Num (sign * digits_value ds)
  end.

(** [Number.prototype.toString()] on the numbers of this model. *)
Definition toString (n : number) : jsstring :=
  match n with
  | NaN => js "NaN"
  | Num z => js (NilZero.string_of_int (Z.to_int z))
  end.

(** [s.padStart(n, "0")]. *)
Definition padStart (n : nat) (s : jsstring) : jsstring :=
  replicate (n - length s) 48%N ++ s.

(** ** The time normalizer (route.ts, lines 55 to 76) *)

Definition COLON : N := 58.

(** Case-insensitive match of one code unit against an upper-case ASCII
    letter: without the [u] flag, [/i] lets a letter match itself and its
    other ASCII case only. *)
Definition matches_letter_i (upper c : N) : bool :=
  ((c =? upper) || (c =? upper + 32))%N.

(** The tail [(?:\s*(AM|PM))?$] of the time pattern: [Some None] when the
    input ends here, [Some (Some p)] when white space and AM or PM in any
    case end it, [None] when neither matches. *)
Definition match_period (rest : jsstring) : option (option jsstring) :=
  match rest with
  | [] => Some None
  | _ =>
      match trimStart rest with
      | [a; m] =>
          if (matches_letter_i 65 a || matches_letter_i 80 a)
             && matches_letter_i 77 m
          then Some (Some [a; m])
          else None
      | _ => None
      end
  end.

(** The part [:(\d{2})(?:\s*(AM|PM))?$] after the hour digits [h]. *)
Definition match_minutes (h rest : jsstring)
  : option (jsstring * jsstring * option jsstring) :=
  match rest with
  | c :: d1 :: d2 :: rest' =>
      if (c =? COLON)%N && is_digit d1 && is_digit d2 then
        match match_period rest' with
        | Some p => Some (h, [d1; d2], p)
        | None => None
        end
      else None
  | _ => None
  end.

(** [s.match(/^(\d{1,2}):(\d{2})(?:\s*(AM|PM))?$/i)]: the three capture
    groups, the third absent when no period was written.  The hour group is
    greedy: two digits are tried before one. *)
Definition match_timeRegex (s : jsstring)
  : option (jsstring * jsstring * option jsstring) :=
  match s with
  | d1 :: s1 =>
      if is_digit d1 then
        let two_digits :=
          match s1 with
          | d2 :: s2 => if is_digit d2 then match_minutes [d1; d2] s2 else None
          | [] => None
          end in
        match two_digits with
        | Some r => Some r
        | None => match_minutes [d1] s1
        end
      else None
  | [] => None
  end.

(** [String.prototype.toUpperCase] on ASCII letters, which is all the
    period capture can hold. *)
Definition toUpperCase (s : jsstring) : jsstring :=
  map (fun c => if ((97 <=? c) && (c <=? 122))%N then (c - 32)%N else c) s.

Definition normalizeTime (value : jsstring) : option jsstring :=
  match match_timeRegex (trim value) with
  | None => None
  | Some (m1, m2, m3) =>
      let hours := parseInt m1 in
      let minutes := parseInt m2 in
      let period := toUpperCase <$> m3 in
      let hours :=
        match period with
        | Some p =>
            let hours :=
              if jsstring_eqb p (js "PM") && negb (num_eqb hours 12)
              then num_add hours 12 else hours in
            if jsstring_eqb p (js "AM") && num_eqb hours 12
            then Num 0 else hours
        | None => hours
        end in
      if num_gtb hours 23 || num_gtb minutes 59 then None
      else Some (padStart 2 (toString hours) ++ js ":"
                 ++ padStart 2 (toString minutes))
  end.

(** ** Values and [JSON.parse]

    The JavaScript values this program handles: what [JSON.parse] can
    return, and what the validator stores.  A number keeps its source text
    (nothing here reads a number's value), and an object keeps its members
    as written. *)

#[local] Set Warnings "-register-all".

Inductive value : Type :=
| VNull
| VBool (b : bool)
| VNumber (lexeme : jsstring)
| VString (s : jsstring)
| VArray (items : list value)
| VObject (members : list (jsstring * value)).

Inductive token : Type :=
| TLBrace | TRBrace | TLBrack | TRBrack | TColon | TComma
| TScalar (v : value).

(** Where the scanner stands inside a JSON number: an optional minus, then
    a zero or a run of digits that does not start with zero, then an
    optional fraction (a dot and digits) and an optional exponent (e or E,
    an optional sign, digits). *)
Inductive num_state : Type :=
| NMinus | NZero | NInt | NDot | NFrac | NExp | NExpSign | NExpDigits.

Definition num_accepting (n : num_state) : bool :=
  match n with
  | NZero | NInt | NFrac | NExpDigits => true
  | NMinus | NDot | NExp | NExpSign => false
  end.

Definition is_e (c : N) : bool := ((c =? 69) || (c =? 101))%N.

(** The number automaton's move on one more code unit, when it has one. *)
Definition num_next (n : num_state) (c : N) : option num_state :=
  match n with
  | NMinus =>
      if (c =? 48)%N then Some NZero
      else if is_digit c then Some NInt else None
  | NZero =>
      if (c =? 46)%N then Some NDot
      else if is_e c then Some NExp else None
  | NInt =>
      if is_digit c then Some NInt
      else if (c =? 46)%N then Some NDot
      else if is_e c then Some NExp else None
  | NDot => if is_digit c then Some NFrac else None
  | NFrac =>
      if is_digit c then Some NFrac
      else if is_e c then Some NExp else None
  | NExp =>
      if (c =? PLUS_SIGN)%N || (c =? MINUS_SIGN)%N then Some NExpSign
      else if is_digit c then Some NExpDigits else None
  | NExpSign => if is_digit c then Some NExpDigits else None
  | NExpDigits => if is_digit c then Some NExpDigits else None
  end.

Inductive lex_state : Type :=
| LStart
| LStr (acc : jsstring)
| LEsc (acc : jsstring)
| LHex (acc : jsstring) (digits : list N)
| LNum (n : num_state) (acc : jsstring)
| LLit (expected : jsstring) (v : value).

Definition is_json_space (c : N) : bool :=
  ((c =? 32) || (c =? 9) || (c =? 10) || (c =? 13))%N.

Definition hex_value (c : N) : option N :=
  if is_digit c then Some (c - 48)%N
  else if ((65 <=? c) && (c <=? 70))%N then Some (c - 55)%N
  else if ((97 <=? c) && (c <=? 102))%N then Some (c - 87)%N
  else None.

(** The character an escape [\c] stands for; [\u] is handled apart. *)
Definition escape_value (c : N) : option N :=
  if (c =? 34)%N then Some 34%N
  else if (c =? 92)%N then Some 92%N
  else if (c =? 47)%N then Some 47%N
  else if (c =? 98)%N then Some 8%N
  else if (c =? 102)%N then Some 12%N
  else if (c =? 110)%N then Some 10%N
  else if (c =? 114)%N then Some 13%N
  else if (c =? 116)%N then Some 9%N
  else None.

(** A code unit met between tokens. *)
Definition lex_start (c : N) : option (lex_state * list token) :=
  if is_json_space c then Some (LStart, [])
  else if (c =? 123)%N then Some (LStart, [TLBrace])
  else if (c =? 125)%N then Some (LStart, [TRBrace])
  else if (c =? 91)%N then Some (LStart, [TLBrack])
  else if (c =? 93)%N then Some (LStart, [TRBrack])
  else if (c =? COLON)%N then Some (LStart, [TColon])
  else if (c =? 44)%N then Some (LStart, [TComma])
  else if (c =? 34)%N then Some (LStr [], [])
  else if (c =? MINUS_SIGN)%N then Some (LNum NMinus [c], [])
  else if (c =? 48)%N then Some (LNum NZero [c], [])
  else if is_digit c then Some (LNum NInt [c], [])
  else if (c =? 116)%N then Some (LLit (js "rue") (VBool true), [])
  else if (c =? 102)%N then Some (LLit (js "alse") (VBool false), [])
  else if (c =? 110)%N then Some (LLit (js "ull") VNull, [])
  else None.

(** One step of the scanner: the next state and the tokens completed by
    this code unit; [None] is a syntax error. *)
Definition lex_step (st : lex_state) (c : N) : option (lex_state * list token) :=
  match st with
  | LStart => lex_start c
  | LStr acc =>
      if (c =? 34)%N then Some (LStart, [TScalar (VString (rev acc))])
      else if (c =? 92)%N then Some (LEsc acc, [])
      else if (c <? 32)%N then None
      else Some (LStr (c :: acc), [])
  | LEsc acc =>
      if (c =? 117)%N then Some (LHex acc [], [])
      else match escape_value c with
           | Some e => Some (LStr (e :: acc), [])
           | None => None
           end
  | LHex acc ds =>
      match hex_value c with
      | Some h =>
          match ds with
          | [a; b; d] =>
              Some (LStr ((((a * 16 + b) * 16 + d) * 16 + h)%N :: acc), [])
          | _ => Some (LHex acc (ds ++ [h]), [])
          end
      | None => None
      end
  | LNum n acc =>
      match num_next n c with
      | Some n' => Some (LNum n' (c :: acc), [])
      | None =>
          if num_accepting n then
            match lex_start c with
            | Some (st', ts) => Some (st', TScalar (VNumber (rev acc)) :: ts)
            | None => None
            end
          else None
      end
  | LLit expected v =>
      match expected with
      | e :: es =>
          if (c =? e)%N then
            match es with
            | [] => Some (LStart, [TScalar v])
            | _ => Some (LLit es v, [])
            end
          else None
      | [] => None
      end
  end.

(** The tokens of a text, or [None] on a syntax error. *)
Fixpoint lex (st : lex_state) (s : jsstring) : option (list token) :=
  match s with
  | c :: s' =>
      match lex_step st c with
      | Some (st', ts) =>
          match lex st' s' with
          | Some rest => Some (ts ++ rest)
          | None => None
          end
      | None => None
      end
  | [] =>
      match st with
      | LStart => Some []
      | LNum n acc =>
          if num_accepting n then Some [TScalar (VNumber (rev acc))] else None
      | _ => None
      end
  end.

(** An open array or object, innermost first on the parser's stack; what
    was read of it is kept in reverse. *)
Inductive frame : Type :=
| FArr (items : list value)
| FObj (members : list (jsstring * value))
| FObjVal (members : list (jsstring * value)) (key : jsstring).

Inductive expect : Type :=
| EValue          (* a value *)
| EValueOrClose   (* just after [: a value or ] *)
| EKeyOrClose     (* just after {: a key or } *)
| EKey            (* after a comma in an object: a key *)
| EColon (key : jsstring)
| EAfter          (* after a value in an array or object: a comma or the end of it *)
| EDone (v : value).

(** A value is complete: it is the whole text, or goes into the innermost
    open array or object. *)
Definition complete (v : value) (stack : list frame)
  : option (list frame * expect) :=
  match stack with
  | [] => Some ([], EDone v)
  | FArr items :: stack' => Some (FArr (v :: items) :: stack', EAfter)
  | FObjVal ms k :: stack' => Some (FObj ((k, v) :: ms) :: stack', EAfter)
  | FObj _ :: _ => None
  end.

Definition parse_value_token (t : token) (stack : list frame)
  : option (list frame * expect) :=
  match t with
  | TScalar v => complete v stack
  | TLBrack => Some (FArr [] :: stack, EValueOrClose)
  | TLBrace => Some (FObj [] :: stack, EKeyOrClose)
  | _ => None
  end.

Definition close_array (stack : list frame) : option (list frame * expect) :=
  match stack with
  | FArr items :: stack' => complete (VArray (rev items)) stack'
  | _ => None
  end.

Definition close_object (stack : list frame) : option (list frame * expect) :=
  match stack with
  | FObj ms :: stack' => complete (VObject (rev ms)) stack'
  | _ => None
  end.

(** One step of the parser on a token; [None] is a syntax error. *)
Definition parse_step (st : list frame * expect) (t : token)
  : option (list frame * expect) :=
  let '(stack, e) := st in
  match e with
  | EValue => parse_value_token t stack
  | EValueOrClose =>
      match t with
      | TRBrack => close_array stack
      | _ => parse_value_token t stack
      end
  | EKeyOrClose =>
      match t with
      | TRBrace => close_object stack
      | TScalar (VString k) => Some (stack, EColon k)
      | _ => None
      end
  | EKey =>
      match t with
      | TScalar (VString k) => Some (stack, EColon k)
      | _ => None
      end
  | EColon k =>
      match t, stack with
      | TColon, FObj ms :: stack' => Some (FObjVal ms k :: stack', EValue)
      | _, _ => None
      end
  | EAfter =>
      match t, stack with
      | TComma, FArr _ :: _ => Some (stack, EValue)
      | TComma, FObj _ :: _ => Some (stack, EKey)
      | TRBrack, _ => close_array stack
      | TRBrace, _ => close_object stack
      | _, _ => None
      end
  | EDone _ => None
  end.

Fixpoint parse_tokens (st : list frame * expect) (ts : list token)
  : option value :=
  match ts with
  | t :: ts' =>
      match parse_step st t with
      | Some st' => parse_tokens st' ts'
      | None => None
      end
  | [] =>
      match st with
      | (_, EDone v) => Some v
      | _ => None
      end
  end.

(** [JSON.parse(text)]: the value, or [None] where JavaScript throws a
    SyntaxError. *)
Definition JSON_parse (text : jsstring) : option value :=
  match lex LStart text with
  | Some ts => parse_tokens ([], EValue) ts
  | None => None
  end.

(** ** Dates (ECMA-262, Time Values and Time Range)

    A time value is a number of milliseconds since 1970-01-01T00:00Z. *)

Definition msPerDay : Z := 86400000.

Definition Day (t : Z) : Z := t / msPerDay.

Definition TimeWithinDay (t : Z) : Z := t mod msPerDay.

Definition DayFromYear (y : Z) : Z :=
  365 * (y - 1970) + (y - 1969) / 4 - (y - 1901) / 100 + (y - 1601) / 400.

Definition DaysInYear (y : Z) : Z := DayFromYear (y + 1) - DayFromYear y.

(** The year a day falls in: the largest [y] with [DayFromYear y <= d],
    found from an estimate that is off by one at most. *)
Definition YearFromDay (d : Z) : Z :=
  let y := 1970 + (400 * d) / 146097 in
  if d <? DayFromYear y then y - 1
  else if DayFromYear (y + 1) <=? d then y + 1
  else y.

Definition InLeapYear (y : Z) : Z := DaysInYear y - 365.

(** The day within its year on which month [m] (0 for January) starts;
    [leap] is 1 in a leap year and 0 otherwise. *)
Definition month_start (leap m : Z) : Z :=
  match m with
  | 0 => 0
  | 1 => 31
  | 2 => 59 + leap
  | 3 => 90 + leap
  | 4 => 120 + leap
  | 5 => 151 + leap
  | 6 => 181 + leap
  | 7 => 212 + leap
  | 8 => 243 + leap
  | 9 => 273 + leap
  | 10 => 304 + leap
  | 11 => 334 + leap
  | _ => 365 + leap
  end.

(** The month (0 to 11) of the day [dy] within a year. *)
Definition month_of_day (leap dy : Z) : Z :=
  if dy <? month_start leap 1 then 0
  else if dy <? month_start leap 2 then 1
  else if dy <? month_start leap 3 then 2
  else if dy <? month_start leap 4 then 3
  else if dy <? month_start leap 5 then 4
  else if dy <? month_start leap 6 then 5
  else if dy <? month_start leap 7 then 6
  else if dy <? month_start leap 8 then 7
  else if dy <? month_start leap 9 then 8
  else if dy <? month_start leap 10 then 9
  else if dy <? month_start leap 11 then 10
  else 11.

Definition YearFromTime (t : Z) : Z := YearFromDay (Day t).

Definition DayWithinYear (t : Z) : Z := Day t - DayFromYear (YearFromTime t).

Definition MonthFromTime (t : Z) : Z :=
  month_of_day (InLeapYear (YearFromTime t)) (DayWithinYear t).

Definition DateFromTime (t : Z) : Z :=
  DayWithinYear t
  - month_start (InLeapYear (YearFromTime t)) (MonthFromTime t) + 1.

(** The day number of the calendar date [y]-[m]-[d], months counted from 1
    ([MakeDay] on a month and day that are in range). *)
Definition MakeDay (y m d : Z) : Z :=
  DayFromYear y + month_start (InLeapYear y) (m - 1) + (d - 1).

Definition DaysInMonth (y m : Z) : Z :=
  month_start (InLeapYear y) m - month_start (InLeapYear y) (m - 1).

(** The last [w] decimal digits of a number that is not negative: the
    number itself, zero-padded, when it has at most [w] digits. *)
Fixpoint digits (w : nat) (n : Z) : jsstring :=
  match w with
  | O => []
  | S w' => digits w' (n / 10) ++ [Z.to_N (48 + n mod 10)]
  end.

(** The year of the ISO format: four digits from 0 to 9999, a sign and six
    digits otherwise. *)
Definition iso_year (y : Z) : jsstring :=
  if (0 <=? y) && (y <=? 9999) then digits 4 y
  else (if y <? 0 then MINUS_SIGN else PLUS_SIGN) :: digits 6 (Z.abs y).

(** The calendar date of a time value in the ISO format, in UTC. *)
Definition iso_date (t : Z) : jsstring :=
  iso_year (YearFromTime t) ++ js "-" ++ digits 2 (MonthFromTime t + 1)
  ++ js "-" ++ digits 2 (DateFromTime t).

(** The time of day of a time value in the ISO format, in UTC. *)
Definition iso_time (t : Z) : jsstring :=
  digits 2 (TimeWithinDay t / 3600000)
  ++ js ":" ++ digits 2 ((TimeWithinDay t / 60000) mod 60)
  ++ js ":" ++ digits 2 ((TimeWithinDay t / 1000) mod 60)
  ++ js "." ++ digits 3 (t mod 1000).

(** [Date.prototype.toISOString] of a valid date:
    [YYYY-MM-DDTHH:mm:ss.sssZ] in UTC. *)
Definition toISOString (t : Z) : jsstring :=
  iso_date t ++ js "T" ++ iso_time t ++ js "Z".

(** [n] digits and their value, with the rest of the text. *)
Definition read_digits (n : nat) (s : jsstring) : option (Z * jsstring) :=
  let ds := take n s in
  if (length ds =? n)%nat && forallb is_digit ds
  then Some (digits_value ds, drop n s) else None.

(** The year of the ISO format: [YYYY], [+YYYYYY] or [-YYYYYY]; year zero
    is not written with a minus sign. *)
Definition read_year (s : jsstring) : option (Z * jsstring) :=
  match s with
  | c :: s' =>
      if (c =? PLUS_SIGN)%N then read_digits 6 s'
      else if (c =? MINUS_SIGN)%N then
        '(y, r) ← read_digits 6 s';
        if y =? 0 then None else Some (- y, r)
      else read_digits 4 s
  | [] => None
  end.

(** [-NN] with [lo <= NN <= hi]. *)
Definition read_field (lo hi : Z) (s : jsstring) : option (Z * jsstring) :=
  match s with
  | c :: s' =>
      if (c =? MINUS_SIGN)%N then
        '(n, r) ← read_digits 2 s';
        if (lo <=? n) && (n <=? hi) then Some (n, r) else None
      else None
  | [] => None
  end.

(** The largest time value of a Date, in either direction. *)
Definition maxTime : Z := 8640000000000000.

(** [TimeClip]: a time value out of range is [NaN]. *)
Definition TimeClip (t : option Z) : option Z :=
  t' ← t; if Z.abs t' <=? maxTime then Some t' else None.

(** The date-only forms of the ECMAScript date-time format, [YYYY],
    [YYYY-MM] and [YYYY-MM-DD] with a year of four digits or a signed one
    of six, which every engine reads as midnight UTC of a date that
    exists.  [None] for every other text. *)
Definition parse_date_only (s : jsstring) : option Z :=
  '(y, r) ← read_year s;
  match r with
  | [] => Some (MakeDay y 1 1 * msPerDay)
  | _ =>
      '(m, r) ← read_field 1 12 r;
      match r with
      | [] => Some (MakeDay y m 1 * msPerDay)
      | _ =>
          '(d, r) ← read_field 1 (DaysInMonth y m) r;
          match r with
          | [] => Some (MakeDay y m d * msPerDay)
          | _ => None
          end
      end
  end.

(** ** The host

    What the JavaScript engine supplies and this development does not
    spell out: Unicode case mapping, [Date.parse] on the texts outside
    [parse_date_only] (date-times, whose reading depends on the local time
    zone, and the formats an engine accepts of its own accord), and the
    URL parser. *)

Record URL : Type := {
  protocol : jsstring;
  href : jsstring
}.

Class Host : Type := {
  (** [String.prototype.toLowerCase]. *)
  toLowerCase : jsstring -> jsstring;
  (** [Date.parse] outside the date-only forms; [None] is [NaN]. *)
  Date_parse_host : jsstring -> option Z;
  (** [new URL(s)]; [None] where it throws. *)
  URL_parse : jsstring -> option URL;
  (** Lower-case ASCII letters are their own lower case. *)
  toLowerCase_lower :
    forall s, Forall (fun c => (97 <= c <= 122)%N) s -> toLowerCase s = s;
  (** The empty text is no URL: it names no scheme. *)
  URL_parse_empty : URL_parse [] = None;
  (** A URL's serialization parses to the same URL (URL Standard, URL
      serializing). *)
  URL_parse_href : forall s u, URL_parse s = Some u -> URL_parse (href u) = Some u
}.

(** [Date.parse]. *)
Definition Date_parse `{Host} (s : jsstring) : option Z :=
  match parse_date_only s with
  | Some t => Some t
  | None => Date_parse_host s
  end.

(** The time value of [new Date(s)]; [None] is an invalid date. *)
Definition new_Date `{Host} (s : jsstring) : option Z :=
  TimeClip (Date_parse s).

(** ** The date normalizer (route.ts, lines 46 to 53) *)

Definition LETTER_T : N := 84.

Definition normalizeDate `{Host} (value : jsstring) : option jsstring :=
  match new_Date value with
  | None => None
  | Some parsedDate => head (split LETTER_T (toISOString parsedDate))
  end.

(** A stand-in for the engine where a statement is evaluated on a concrete
    submission.  It lower-cases the ASCII letters, reads no date beyond the
    date-only forms, and parses the URLs of [known_URLs], the ones used in
    this development, each to the protocol an engine reads from it and to
    itself as its serialization. *)
Definition ascii_lower (s : jsstring) : jsstring :=
  map (fun c => if ((65 <=? c) && (c <=? 90))%N then (c + 32)%N else c) s.

Definition known_URLs : list (string * string) :=
  [("https://res.cloudinary.com/demo/a.png", "https:");
   ("https://example.com/a.png", "https:");
   ("http://example.com/a.png", "http:")].

Fixpoint lookup_URL (table : list (string * string)) (s : jsstring)
  : option URL :=
  match table with
  | (text, scheme) :: table' =>
      if jsstring_eqb (js text) s
      then Some {| protocol := js scheme; href := js text |}
      else lookup_URL table' s
  | [] => None
  end.

Definition plain_host : Host.
Proof.
  refine {| toLowerCase := ascii_lower;
            Date_parse_host := fun _ => None;
            URL_parse := lookup_URL known_URLs;
            toLowerCase_lower := _;
            URL_parse_empty := eq_refl;
            URL_parse_href := _ |}.
  - unfold ascii_lower. induction 1 as [|c s Hc _ IH]; simpl; [done|].
    rewrite IH. destruct (c <=? 90)%N eqn:E; [apply N.leb_le in E; lia|].
    by rewrite andb_false_r.
  - intros s u Hs.
    assert (Heq : forall a b, jsstring_eqb a b = true -> a = b).
    { induction a as [|x a IH]; intros [|y b]; simpl; try done.
      intros [Hx Hab]%andb_true_iff. apply N.eqb_eq in Hx as ->.
      f_equal. by apply IH. }
    assert (Hu : href u = s).
    { revert Hs. generalize known_URLs. intros table.
      induction table as [|[text scheme] table IH]; simpl; [done|].
      destruct (jsstring_eqb (js text) s) eqn:E; [|done].
      intros [= <-]. by apply Heq. }
    by rewrite Hu.
Defined.

(** ** The array parser (route.ts, lines 78 to 96) *)

Definition COMMA : N := 44.

Definition parseStringArray (value : jsstring) : option (list jsstring) :=
  let candidate :=
    match JSON_parse value with
    | Some v => v
    | None =>
        VArray (VString <$>
                  (if includes COMMA value then split COMMA value else [value]))
    end in
  match candidate with
  | VArray items =>
      let sanitizedArray :=
        map strip_angle
          (List.filter (fun item => negb (is_empty item))
             (map (fun item => match item with
                               | VString s => trim s
                               | _ => []
                               end) items)) in
      match sanitizedArray with
      | [] => None
      | _ => Some sanitizedArray
      end
  | _ => None
  end.

(** ** The image check (route.ts, lines 98 to 105) *)

Definition ensureSecureImageUrl `{Host} (url : jsstring) : option jsstring :=
  match URL_parse url with
  | Some parsed =>
      if jsstring_eqb (protocol parsed) (js "https:") then Some (href parsed)
      else None
  | None => None
  end.

(** ** The validator (route.ts, lines 107 to 189) *)

Record File : Type := {
  file_name : jsstring;
  file_type : jsstring;
  file_size : Z
}.

(** A form entry: a string or a file. *)
Inductive FormDataEntryValue : Type :=
| FString (s : jsstring)
| FFile (f : File).

(** The errors pushed so far and the fields of [sanitized] set so far. *)
Definition State : Type := list string * gmap string value.

Definition push (e : string) (st : State) : State := (st.1 ++ [e], st.2).

Definition set_field (k : string) (v : value) (st : State) : State :=
  (st.1, <[k := v]> st.2).

(** [typeof v === "string" ? v : ""]. *)
Definition string_or_empty (v : option FormDataEntryValue) : jsstring :=
  match v with
  | Some (FString s) => s
  | _ => []
  end.

(** The body of the loop over [TEXT_FIELD_LIMITS] (lines 114 to 128). *)
Definition text_step (raw : gmap (list N) FormDataEntryValue)
    (st : State) (field : text_field) : State :=
  match raw !! js (field_name field) with
  | Some (FString rawValue) =>
      let cleanValue := sanitizePlainText rawValue (maxLength field) in
      if is_empty cleanValue
      then push (field_name field +:+ " cannot be empty") st
      else set_field (field_name field) (VString cleanValue) st
  | _ => push (field_name field +:+ " is required") st
  end.

(** Lines 130 to 140.  A string passes [!s] when it is neither [null] nor
    empty; so below for the time and the image. *)
Definition date_step `{Host} (raw : gmap (list N) FormDataEntryValue)
    (st : State) : State :=
  match raw !! js "date" with
  | Some (FString rawDate) =>
      match normalizeDate rawDate with
      | Some (c :: d) => set_field "date" (VString (c :: d)) st
      | _ => push "date must be a valid date" st
      end
  | _ => push "date is required" st
  end.

(** Lines 142 to 152. *)
Definition time_step (raw : gmap (list N) FormDataEntryValue)
    (st : State) : State :=
  match raw !! js "time" with
  | Some (FString rawTime) =>
      match normalizeTime rawTime with
      | Some (c :: t) => set_field "time" (VString (c :: t)) st
      | _ => push "time must be in HH:MM or HH:MM AM/PM format" st
      end
  | _ => push "time is required" st
  end.

Definition ALLOWED_MODES : list string := ["online"; "offline"; "hybrid"].

(** Lines 154 to 159. *)
Definition mode_step `{Host} (raw : gmap (list N) FormDataEntryValue)
    (st : State) : State :=
  let rawMode :=
    match raw !! js "mode" with
    | Some (FString m) => toLowerCase (trim m)
    | _ => []
    end in
  if negb (existsb (fun m => jsstring_eqb (js m) rawMode) ALLOWED_MODES)
  then push ("mode must be one of: " +:+ String.concat ", " ALLOWED_MODES) st
  else set_field "mode" (VString rawMode) st.

(** Lines 161 to 167 for [agenda] and 169 to 175 for [tags]. *)
Definition array_step (field : string)
    (raw : gmap (list N) FormDataEntryValue) (st : State) : State :=
  let rawArray := string_or_empty (raw !! js field) in
  let array := if is_empty rawArray then None else parseStringArray rawArray in
  match array with
  | None =>
      push (field +:+ " must be an array of strings with at least one item") st
  | Some array => set_field field (VArray (VString <$> array)) st
  end.

(** Lines 177 to 183. *)
Definition image_step `{Host} (raw : gmap (list N) FormDataEntryValue)
    (st : State) : State :=
  let rawImage := string_or_empty (raw !! js "image") in
  match ensureSecureImageUrl rawImage with
  | Some (c :: u) => set_field "image" (VString (c :: u)) st
  | _ => push "image must be a valid HTTPS URL" st
  end.

Record ValidationResult : Type := {
  sanitizedEvent : option (gmap string value);
  errors : list string
}.

Definition validateAndSanitizeEvent `{Host}
    (raw : gmap (list N) FormDataEntryValue) : ValidationResult :=
  let st : State := ([], ∅) in
  let st := foldl (text_step raw) st TEXT_FIELD_LIMITS in
  let st := date_step raw st in
  let st := time_step raw st in
  let st := mode_step raw st in
  let st := array_step "agenda" raw st in
  let st := array_step "tags" raw st in
  let st := image_step raw st in
  {| errors := st.1;
     sanitizedEvent := match st.1 with [] => Some st.2 | _ => None end |}.

(** The record type the validator's object is cast to. *)
Record SanitizedEvent : Type := {
  title : jsstring;
  description : jsstring;
  overview : jsstring;
  venue : jsstring;
  location : jsstring;
  date : jsstring;
  time : jsstring;
  mode : jsstring;
  audience : jsstring;
  agenda : list jsstring;
  organizer : jsstring;
  tags : list jsstring;
  image : jsstring
}.

Definition string_array (l : list jsstring) : value := VArray (VString <$> l).

(** The object that holds exactly the fields of a [SanitizedEvent]. *)
Definition to_object (e : SanitizedEvent) : gmap string value :=
  <["image" := VString (image e)]>
    (<["tags" := string_array (tags e)]>
    (<["agenda" := string_array (agenda e)]>
    (<["mode" := VString (mode e)]>
    (<["time" := VString (time e)]>
    (<["date" := VString (date e)]>
    (<["organizer" := VString (organizer e)]>
    (<["audience" := VString (audience e)]>
    (<["location" := VString (location e)]>
    (<["venue" := VString (venue e)]>
    (<["overview" := VString (overview e)]>
    (<["description" := VString (description e)]>
    (<["title" := VString (title e)]> ∅)))))))))))).

(** ** The POST handler (route.ts, lines 191 to 264) *)

(** A form: its entries in order; a name may occur more than once. *)
Definition FormData : Type := list (list N * FormDataEntryValue).

(** [formData.get(name)]: the first entry of that name. *)
Fixpoint FormData_get (name : jsstring) (fd : FormData)
  : option FormDataEntryValue :=
  match fd with
  | (k, v) :: fd' => if jsstring_eqb k name then Some v else FormData_get name fd'
  | [] => None
  end.

(** [Object.fromEntries(formData.entries())]: a later entry of a name
    replaces an earlier one. *)
Definition fromEntries (fd : FormData) : gmap (list N) FormDataEntryValue :=
  foldl (fun o kv => <[kv.1 := kv.2]> o) ∅ fd.

(** [String(v)] of what [formData.get] returns. *)
Definition entry_to_string (v : option FormDataEntryValue) : jsstring :=
  match v with
  | None => js "null"
  | Some (FString s) => s
  | Some (FFile _) => js "[object File]"
  end.

(** What the handler calls outside itself. *)
Class Services : Type := {
  (** Whether [connectDB()] resolves. *)
  connectDB : bool;
  (** The [secure_url] of the uploaded image; [None] when the upload is
      rejected. *)
  upload : File -> option jsstring;
  (** Whether [Event.create(doc)] resolves. *)
  Event_create : gmap string value -> bool
}.

(** A response: its status, its message, and the validation errors when
    it lists them.  (The engine's text of a caught exception, which some
    bodies carry too, is left out.) *)
Record Response : Type := {
  status : Z;
  message : string;
  body_errors : list string
}.

Definition respond (st : Z) (msg : string) : Response :=
  {| status := st; message := msg; body_errors := [] |}.

(** What a request comes to: the document [Event.create] was called with,
    if it was called, and the response. *)
Record Outcome : Type := {
  created : option (gmap string value);
  response : Response
}.

Definition reply (r : Response) : Outcome := {| created := None; response := r |}.

Definition allowedTypes : list string :=
  ["image/jpeg"; "image/png"; "image/webp"; "image/gif"].

Definition maxSize : Z := 5 * 1024 * 1024.

Definition POST `{Host} `{Services} (formData : FormData) : Outcome :=
  if negb connectDB then reply (respond 500 "Event Creation Failed")
  else
    let event := fromEntries formData in
    match FormData_get (js "image") formData with
    | None | Some (FString []) => reply (respond 400 "Image file is required")
    | Some file =>
        match JSON_parse (entry_to_string (FormData_get (js "tags") formData)),
              JSON_parse (entry_to_string (FormData_get (js "agenda") formData))
        with
        | Some tags, Some agenda =>
            match file with
            | FString _ =>
                reply (respond 400 "Invalid file type. Only images are allowed")
            | FFile file =>
                if negb (existsb (fun t => jsstring_eqb (js t) (file_type file))
                           allowedTypes)
                then reply (respond 400 "Invalid file type. Only images are allowed")
                else if maxSize <? file_size file
                then reply (respond 400 "File size exceeds 5MB limit")
                else
                  match upload file with
                  | None => reply (respond 500 "Event Creation Failed")
                  | Some secure_url =>
                      let event := <[js "image" := FString secure_url]> event in
                      let r := validateAndSanitizeEvent event in
                      match sanitizedEvent r with
                      | None =>
                          reply {| status := 400;
                                   message := "Validation failed";
                                   body_errors := errors r |}
                      | Some sanitizedEvent =>
                          let doc :=
                            <["agenda" := agenda]>
                              (<["tags" := tags]> sanitizedEvent) in
                          {| created := Some doc;
                             response :=
                               if Event_create doc
                               then respond 201 "Event Created Successfully"
                               else respond 500 "Event Creation Failed" |}
                      end
                  end
            end
        | _, _ => reply (respond 500 "Event Creation Failed")
        end
    end.

(** ** The GET handler (route.ts, lines 266 to 302) *)

Definition GET_limit (limitParam : option jsstring) : Z :=
  match limitParam with
  | Some limitParam =>
      match parseInt limitParam with
      | Num parsedLimit => Z.max 1 (Z.min 100 parsedLimit)
      | NaN => 20
      end
  | None => 20
  end.

Definition GET_page (pageParam : option jsstring) : Z :=
  match pageParam with
  | Some pageParam =>
      match parseInt pageParam with
      | Num parsedPage => Z.max 0 parsedPage
      | NaN => 0
      end
  | None => 0
  end.

(** [Event.find().sort({createdAt: -1}).limit(limit).skip(skip)]. *)
Record Query : Type := {
  sort_createdAt : Z;
  limit : Z;
  skip : Z
}.

(** The query of a request whose [searchParams.get] gives [limitParam] for
    [limit] and [pageParam] for [page] ([None] when the parameter is
    absent). *)
Definition GET_query (limitParam pageParam : option jsstring) : Query :=
  let limit := GET_limit limitParam in
  let page := GET_page pageParam in
  {| sort_createdAt := -1; limit := limit; skip := page * limit |}.

Definition GET `{Services} (limitParam pageParam : option jsstring)
  : Response + Query :=
  if negb connectDB then inl (respond 500 "Event fetching failed")
  else inr (GET_query limitParam pageParam).

(** An object of the shape the validator fills in a round that pushed no
    error. *)
Definition Settled (st : State) : Prop :=
  (st.1 = [] /\ exists e : SanitizedEvent, st.2 = to_object e) \/ st.1 <> [].

(** The text step as the specification words it: the error when the
    trimmed value is empty, and otherwise the stripped and truncated value
    is the field. *)
Definition text_step_as_specified (raw : gmap (list N) FormDataEntryValue)
    (st : State) (field : text_field) : State :=
  match raw !! js (field_name field) with
  | Some (FString rawValue) =>
      if is_empty (trim rawValue)
      then push (field_name field +:+ " cannot be empty") st
      else set_field (field_name field)
             (VString (slice0 (maxLength field) (strip_angle (trim rawValue))))
             st
  | _ => push (field_name field +:+ " is required") st
  end.

(** [typeof v === "string"]. *)
Definition is_string (v : option FormDataEntryValue) : bool :=
  match v with
  | Some (FString _) => true
  | _ => false
  end.

(** How often a message occurs in a list of errors. *)
Definition occurrences (m : string) (l : list string) : nat :=
  count_occ string_dec l m.

(** The text an item of the parsed list stands for: a string is trimmed,
    anything else counts as the empty string. *)
Definition item_text (item : value) : list N :=
  match item with
  | VString s => trim s
  | _ => []
  end.

(** Empty texts are dropped, then the brackets are stripped. *)
Definition clean_texts (texts : list (list N)) : list (list N) :=
  map strip_angle (List.filter (fun s => negb (is_empty s)) texts).

(** A list, unless it is empty. *)
Definition unless_empty {A} (l : list A) : option (list A) :=
  match l with
  | [] => None
  | _ => Some l
  end.

Definition array_error (field : string) : string :=
  field +:+ " must be an array of strings with at least one item".

Definition QUOTE : N := 34.

(** A JSON string literal with the ASCII text [s]. *)
Definition quoted (s : string) : list N := QUOTE :: js s ++ [QUOTE].

(** A submission that passes every check except for what [tags] and
    [agenda] may hold; the image is the uploaded file. *)
Definition sample_file : File :=
  {| file_name := js "a.png"; file_type := js "image/png"; file_size := 1000 |}.

Definition sample_form (tags agenda : list N) : FormData :=
  [ (js "title", FString (js "Rocq meetup"));
    (js "description", FString (js "An evening of proofs"));
    (js "overview", FString (js "Talks and demos"));
    (js "venue", FString (js "Room 1"));
    (js "location", FString (js "Lima"));
    (js "audience", FString (js "Developers"));
    (js "organizer", FString (js "The organizers"));
    (js "date", FString (js "2024-03-15"));
    (js "time", FString (js "2:30 PM"));
    (js "mode", FString (js "Online"));
    (js "agenda", FString agenda);
    (js "tags", FString tags);
    (js "image", FFile sample_file)].

Definition sample_url : list N := js "https://res.cloudinary.com/demo/a.png".

(** Services that all succeed. *)
Definition sample_services : Services := {|
  connectDB := true;
  upload := fun _ => Some sample_url;
  Event_create := fun _ => true
|}.

(** The object the handler passes to the validator for a form. *)
Definition sample_raw (tags agenda : list N) : gmap (list N) FormDataEntryValue :=
  <[js "image" := FString sample_url]> (fromEntries (sample_form tags agenda)).

(** ** The time pattern, as the specification describes it *)

Inductive Period : Type := AM | PM.

Definition period_letter (q : Period) : N :=
  match q with AM => 65 | PM => 80 end.

(** After the minutes: nothing, or white space (possibly none) and AM or
    PM in either case of each letter. *)
Definition period_text (p : option Period) (sfx : list N) : Prop :=
  match p with
  | None => sfx = []
  | Some q =>
      exists ws a m,
        sfx = ws ++ [a; m]
        /\ Forall (fun c => is_whitespace c = true) ws
        /\ (a = period_letter q \/ a = (period_letter q + 32)%N)
        /\ (m = 77 \/ m = 109)%N
  end.

(** [s] reads [H:MM] or [HH:MM], then a period or nothing: [h] and [m] are
    the numbers written and [p] the period. *)
Definition time_text (s : list N) (h m : Z) (p : option Period) : Prop :=
  exists H M sfx,
    s = H ++ COLON :: M ++ sfx
    /\ (length H = 1 \/ length H = 2)%nat
    /\ length M = 2%nat
    /\ Forall (fun c => is_digit c = true) H
    /\ Forall (fun c => is_digit c = true) M
    /\ h = digits_value H
    /\ m = digits_value M
    /\ period_text p sfx.

(** The hour on the 24-hour clock. *)
Definition hour24 (h : Z) (p : option Period) : Z :=
  match p with
  | Some PM => if h =? 12 then 12 else h + 12
  | Some AM => if h =? 12 then 0 else h
  | None => h
  end.

(** No white space at the start of a text. *)
Definition starts_clean (s : list N) : Prop :=
  match s with
  | c :: _ => is_whitespace c = false
  | [] => True
  end.

(** What the period group captures for a period. *)
Definition captured (p : option Period) (cap : option (list N)) : Prop :=
  match p, cap with
  | None, None => True
  | Some q, Some [a; m] =>
      (a = period_letter q \/ a = (period_letter q + 32)%N)
      /\ (m = 77 \/ m = 109)%N
  | _, _ => False
  end.

(** What a step adds to the errors does not depend on the state. *)
Definition logs (step : State -> State) : Prop :=
  forall st, (step st).1 = st.1 ++ (step ([], ∅)).1.

(** ** The calls of the POST handler (route.ts, lines 191 to 264)

    What [POST] calls outside itself, in the order of the source: the
    database connection (line 193), the upload of the image (lines 224 to
    230) and [Event.create] (line 244). *)

Inductive Call : Type :=
| CallConnect
| CallUpload (file : File)
| CallCreate (doc : gmap string value).

Definition POST_calls `{Host} `{Services} (formData : FormData) : list Call :=
  CallConnect ::
  if negb connectDB then []
  else
    let event := fromEntries formData in
    match FormData_get (js "image") formData with
    | None | Some (FString []) => []
    | Some file =>
        match JSON_parse (entry_to_string (FormData_get (js "tags") formData)),
              JSON_parse (entry_to_string (FormData_get (js "agenda") formData))
        with
        | Some tags, Some agenda =>
            match file with
            | FString _ => []
            | FFile file =>
                if negb (existsb (fun t => jsstring_eqb (js t) (file_type file))
                           allowedTypes)
                then []
                else if maxSize <? file_size file then []
                else
                  CallUpload file ::
                  match upload file with
                  | None => []
                  | Some secure_url =>
                      let event := <[js "image" := FString secure_url]> event in
                      match sanitizedEvent (validateAndSanitizeEvent event) with
                      | None => []
                      | Some sanitizedEvent =>
                          [CallCreate (<["agenda" := agenda]>
                                         (<["tags" := tags]> sanitizedEvent))]
                      end
                  end
            end
        | _, _ => []
        end
    end.

(** ** The event-by-slug handler (src/app/api/events/[slug]/route.ts) *)

Module SlugRoute.

Definition HYPHEN : N := 45.

(** The class [[a-z0-9]]. *)
Definition is_slug_char (c : N) : bool :=
  ((97 <=? c) && (c <=? 122))%N || is_digit c.

(** The text is read from the left; [in_word] says that the unit before
    was of [[a-z0-9]], which is where a hyphen may follow and where the
    text may end. *)
Fixpoint slug_tail (in_word : bool) (s : jsstring) : bool :=
  match s with
  | [] => in_word
  | c :: s' =>
      if is_slug_char c then slug_tail true s'
      else if (c =? HYPHEN)%N && in_word then slug_tail false s'
      else false
  end.

(** [slugRegex.test(slug)] for the pattern of line 31: one or more units of
    [[a-z0-9]], then any number of groups of a hyphen and one or more such
    units, from the start of the text to its end. *)
Definition slugRegex_test (slug : jsstring) : bool := slug_tail false slug.

Fixpoint starts_with (needle s : jsstring) : bool :=
  match needle, s with
  | [], _ => true
  | c :: needle', d :: s' => cu_eqb c d && starts_with needle' s'
  | _ :: _, [] => false
  end.

(** [s.includes(needle)]. *)
Fixpoint includes_text (needle s : jsstring) : bool :=
  starts_with needle s
  || match s with
     | [] => false
     | _ :: s' => includes_text needle s'
     end.

(** What a rejected promise carries: an [Error] with its message, or a
    value that is no [Error]. *)
Inductive Thrown : Type :=
| ThrownError (message : jsstring)
| ThrownOther.

Class Store : Type := {
  (** [connectDB()]: [None] when it resolves. *)
  connectDB : option Thrown;
  (** [Event.findOne({ slug }).lean().exec()]: the document or [null], or
      what it throws. *)
  findOne : jsstring -> Thrown + option value
}.

Inductive StoreCall : Type :=
| CallConnectDB
| CallFindOne (slug : jsstring).

(** The calls made to the store, in order, and the response: its status,
    its message and the event it carries. *)
Record Outcome : Type := {
  calls : list StoreCall;
  status : Z;
  message : jsstring;
  event : option value
}.

(** The catch block (lines 63 to 82). *)
Definition failed (calls : list StoreCall) (error : Thrown) : Outcome :=
  match error with
  | ThrownError message =>
      if includes_text (js "connect") message
      then {| calls := calls; status := 503;
              message := js "Database connection failed"; event := None |}
      else {| calls := calls; status := 500;
              message := js "Failed to fetch event"; event := None |}
  | ThrownOther =>
      {| calls := calls; status := 500;
         message := js "Failed to fetch event"; event := None |}
  end.

Definition GET `{Store} (slug : jsstring) : Outcome :=
  if is_empty slug then
    {| calls := []; status := 400;
       message := js "Slug parameter is required"; event := None |}
  else if negb (slugRegex_test slug) then
    {| calls := []; status := 400;
       message := js "Invalid slug format. Slug must contain only lowercase letters, numbers, and hyphens.";
       event := None |}
  else
    match connectDB with
    | Some error => failed [CallConnectDB] error
    | None =>
        match findOne slug with
        | inl error => failed [CallConnectDB; CallFindOne slug] error
        | inr None =>
            {| calls := [CallConnectDB; CallFindOne slug]; status := 404;
               message := js "Event with slug '" ++ slug ++ js "' not found";
               event := None |}
        | inr (Some event) =>
            {| calls := [CallConnectDB; CallFindOne slug]; status := 200;
               message := js "Event fetched successfully";
               event := Some event |}
        end
    end.

(** A store that holds one event, under the slug [rocq-meetup-2024]. *)
Definition sample_store : Store := {|
  connectDB := None;
  findOne := fun slug =>
    if jsstring_eqb slug (js "rocq-meetup-2024")
    then inr (Some (VObject [(js "slug", VString (js "rocq-meetup-2024"))]))
    else inr None
|}.

End SlugRoute.

(** ** What holds of a record the validator returns *)

Definition text_value (f : text_field) (e : SanitizedEvent) : list N :=
  match f with
  | f_title => title e
  | f_description => description e
  | f_overview => overview e
  | f_venue => venue e
  | f_location => location e
  | f_audience => audience e
  | f_organizer => organizer e
  end.

(** A text that is not empty, holds no bracket, and is within the maximum
    of its field. *)
Definition text_ok (f : text_field) (v : list N) : Prop :=
  v <> []
  /\ Forall (fun c => c <> LT_SIGN /\ c <> GT_SIGN) v
  /\ (length v <= maxLength f)%nat.

(** At least one element, and no bracket in any. *)
Definition array_ok (l : list (list N)) : Prop :=
  l <> []
  /\ Forall (fun s => Forall (fun c => c <> LT_SIGN /\ c <> GT_SIGN) s) l.

(** The messages the validator can push, in the order of its checks. *)
Definition ALL_ERRORS : list string :=
  ["title is required"; "title cannot be empty";
   "description is required"; "description cannot be empty";
   "overview is required"; "overview cannot be empty";
   "venue is required"; "venue cannot be empty";
   "location is required"; "location cannot be empty";
   "audience is required"; "audience cannot be empty";
   "organizer is required"; "organizer cannot be empty";
   "date is required"; "date must be a valid date";
   "time is required"; "time must be in HH:MM or HH:MM AM/PM format";
   "mode must be one of: online, offline, hybrid";
   "agenda must be an array of strings with at least one item";
   "tags must be an array of strings with at least one item";
   "image must be a valid HTTPS URL"].

(** The names of the fields the validator reads. *)
Definition FIELD_NAMES : list string :=
  ["title"; "description"; "overview"; "venue"; "location"; "audience";
   "organizer"; "date"; "time"; "mode"; "agenda"; "tags"; "image"].

(** The messages each check can push, in the order of the checks. *)
Definition FIELD_ERRORS : list (string * list string) :=
  [("title", ["title is required"; "title cannot be empty"]);
   ("description", ["description is required"; "description cannot be empty"]);
   ("overview", ["overview is required"; "overview cannot be empty"]);
   ("venue", ["venue is required"; "venue cannot be empty"]);
   ("location", ["location is required"; "location cannot be empty"]);
   ("audience", ["audience is required"; "audience cannot be empty"]);
   ("organizer", ["organizer is required"; "organizer cannot be empty"]);
   ("date", ["date is required"; "date must be a valid date"]);
   ("time", ["time is required"; "time must be in HH:MM or HH:MM AM/PM format"]);
   ("mode", ["mode must be one of: online, offline, hybrid"]);
   ("agenda", ["agenda must be an array of strings with at least one item"]);
   ("tags", ["tags must be an array of strings with at least one item"]);
   ("image", ["image must be a valid HTTPS URL"])].

(** Nothing, or one of the messages of a check. *)
Definition one_of (messages pushed : list string) : Prop :=
  pushed = [] \/ exists e, In e messages /\ pushed = [e].

(** What holds of the record [e] returned for the submission [raw]: each
    field is what its check makes of the string submitted under its
    name. *)
Definition record_ok `{Host} (raw : gmap (list N) FormDataEntryValue)
    (e : SanitizedEvent) : Prop :=
  (forall f,
     text_ok f (text_value f e)
     /\ exists rawValue,
          raw !! js (field_name f) = Some (FString rawValue)
          /\ text_value f e = sanitizePlainText rawValue (maxLength f))
  /\ (exists rawDate t,
        raw !! js "date" = Some (FString rawDate)
        /\ new_Date rawDate = Some t
        /\ Z.abs t <= maxTime
        /\ date e = iso_date t)
  /\ (exists rawTime h m,
        raw !! js "time" = Some (FString rawTime)
        /\ normalizeTime rawTime = Some (time e)
        /\ 0 <= h <= 23 /\ 0 <= m <= 59
        /\ time e = digits 2 h ++ js ":" ++ digits 2 m)
  /\ (exists rawMode m,
        raw !! js "mode" = Some (FString rawMode)
        /\ In m ALLOWED_MODES
        /\ toLowerCase (trim rawMode) = js m
        /\ mode e = js m)
  /\ (array_ok (agenda e)
      /\ exists text, raw !! js "agenda" = Some (FString text)
                      /\ parseStringArray text = Some (agenda e))
  /\ (array_ok (tags e)
      /\ exists text, raw !! js "tags" = Some (FString text)
                      /\ parseStringArray text = Some (tags e))
  /\ (exists rawImage u,
        raw !! js "image" = Some (FString rawImage)
        /\ URL_parse rawImage = Some u
        /\ protocol u = js "https:"
        /\ image e = href u
        /\ href u <> []).

(** A piece of a slug between two hyphens: not empty, and of [[a-z0-9]]
    only. *)
Definition slug_word (p : list N) : Prop :=
  p <> [] /\ Forall (fun c => SlugRoute.is_slug_char c = true) p.

(** A submission that passes every check. *)
Definition sample_tags : list N := js "[" ++ quoted "AI" ++ js "]".
Definition sample_agenda : list N := js "[" ++ quoted "Opening" ++ js "]".

(** * Properties *)

(** ** The model on known inputs

    What the definitions above compute on texts whose result in JavaScript
    is known. *)

Example is_whitespace_samples :
  map is_whitespace
    [8; 9; 10; 11; 12; 13; 14; 32; 33; 160; 5760; 8191; 8192; 8202; 8203;
     8232; 8233; 8239; 8287; 12288; 65279; 65534]%N
  = [false; true; true; true; true; true; false; true; false; true; true;
     false; true; true; false; true; true; true; true; true; true; false].
Proof. reflexivity. Qed.

Example split_samples :
  split COMMA (js "") = [[]]
  /\ split COMMA (js ",") = [[]; []]
  /\ split COMMA (js "a,,b") = [js "a"; []; js "b"].
Proof. repeat split. Qed.

Example parseInt_samples :
  parseInt (js "  42px") = Num 42
  /\ parseInt (js "-7") = Num (-7)
  /\ parseInt (js "007") = Num 7
  /\ parseInt (js "1e3") = Num 1
  /\ parseInt (js "0x10") = Num 0
  /\ parseInt (js "+") = NaN
  /\ parseInt (js "- 5") = NaN
  /\ parseInt (js "") = NaN.
Proof. repeat split. Qed.

Example normalizeTime_samples :
  normalizeTime (js "12:00 PM") = Some (js "12:00")
  /\ normalizeTime (js "0:30 PM") = Some (js "12:30")
  /\ normalizeTime (js "7:05AM") = Some (js "07:05")
  /\ normalizeTime (js " 7:05 Pm ") = Some (js "19:05")
  /\ normalizeTime (js "13:00 AM") = Some (js "13:00")
  /\ normalizeTime (js "23:59") = Some (js "23:59")
  /\ normalizeTime (js "13:00 PM") = None
  /\ normalizeTime (js "24:00") = None
  /\ normalizeTime (js "7:60") = None
  /\ normalizeTime (js "7:5") = None
  /\ normalizeTime (js "007:05") = None
  /\ normalizeTime (js "7:05 A M") = None.
Proof. repeat split. Qed.

Example JSON_parse_samples :
  JSON_parse (js "[1, true, null, {}, [], -0.5e+3 ]")
  = Some (VArray [VNumber (js "1"); VBool true; VNull; VObject []; VArray [];
                  VNumber (js "-0.5e+3")])
  /\ JSON_parse (js "{" ++ quoted "a" ++ js ":[" ++ quoted "b" ++ js "],"
                 ++ quoted "c" ++ js ": 1}")
     = Some (VObject [(js "a", VArray [VString (js "b")]);
                      (js "c", VNumber (js "1"))])
  /\ JSON_parse (js "[" ++ quoted "A\t\/" ++ js "]")
     = Some (VArray [VString [65; 9; 47]%N])
  /\ JSON_parse (js " 12 ") = Some (VNumber (js "12"))
  /\ JSON_parse (js "null") = Some VNull
  /\ JSON_parse (js "") = None
  /\ JSON_parse (js "[01]") = None
  /\ JSON_parse (js "[1,]") = None
  /\ JSON_parse (js "[1 2]") = None
  /\ JSON_parse (js "1 2") = None
  /\ JSON_parse (js "nul") = None
  /\ JSON_parse (js "[[]") = None
  /\ JSON_parse (js "[object File]") = None
  /\ JSON_parse (js "AI,Cloud") = None.
Proof. repeat split. Qed.

Example toISOString_samples :
  toISOString 0 = js "1970-01-01T00:00:00.000Z"
  /\ toISOString (-1) = js "1969-12-31T23:59:59.999Z"
  /\ toISOString 951782400000 = js "2000-02-29T00:00:00.000Z"
  /\ toISOString 1710460800123 = js "2024-03-15T00:00:00.123Z"
  /\ toISOString 4107542400000 = js "2100-03-01T00:00:00.000Z"
  /\ toISOString (-62167219200000) = js "0000-01-01T00:00:00.000Z"
  /\ toISOString 253402300799999 = js "9999-12-31T23:59:59.999Z"
  /\ toISOString 253402300800000 = js "+010000-01-01T00:00:00.000Z"
  /\ toISOString maxTime = js "+275760-09-13T00:00:00.000Z"
  /\ toISOString (- maxTime) = js "-271821-04-20T00:00:00.000Z".
Proof. repeat split. Qed.

Example parse_date_only_samples :
  parse_date_only (js "1970") = Some 0
  /\ parse_date_only (js "1970-01") = Some 0
  /\ parse_date_only (js "2000-02-29") = Some 951782400000
  /\ parse_date_only (js "2024-03-15") = Some 1710460800000
  /\ parse_date_only (js "2100-02-29") = None
  /\ parse_date_only (js "2024-13-01") = None
  /\ parse_date_only (js "1970-1-1") = None
  /\ parse_date_only (js "-000000") = None
  /\ parse_date_only (js "2024-03-15T00:00:00Z") = None
  /\ parse_date_only (js "not-a-date") = None.
Proof. repeat split. Qed.

(** A submission that passes every check, and its record. *)
Example validateAndSanitizeEvent_sample :
  @validateAndSanitizeEvent plain_host
    (sample_raw (js "AI, <b>Cloud</b>") (js "[" ++ quoted " Opening " ++ js "]"))
  = {| errors := [];
       sanitizedEvent := Some (to_object {|
         title := js "Rocq meetup";
         description := js "An evening of proofs";
         overview := js "Talks and demos";
         venue := js "Room 1";
         location := js "Lima";
         date := js "2024-03-15";
         time := js "14:30";
         mode := js "online";
         audience := js "Developers";
         agenda := [js "Opening"];
         organizer := js "The organizers";
         tags := [js "AI"; js "bCloud/b"];
         image := sample_url |}) |}.
Proof. vm_compute. reflexivity. Qed.

Example GET_query_samples :
  GET_query (Some (js "500")) (Some (js "-3"))
  = {| sort_createdAt := -1; limit := 100; skip := 0 |}
  /\ GET_query (Some (js "abc")) None
     = {| sort_createdAt := -1; limit := 20; skip := 0 |}
  /\ GET_query (Some (js "0")) (Some (js "7"))
     = {| sort_createdAt := -1; limit := 1; skip := 7 |}
  /\ GET_query (Some (js "25")) (Some (js "3"))
     = {| sort_createdAt := -1; limit := 25; skip := 75 |}.
Proof. repeat split. Qed.

(** ** Strings *)

Lemma jsstring_eqb_eq a b : jsstring_eqb a b = true <-> a = b.
Proof.
  revert b. induction a as [|x a IH]; intros [|y b]; simpl; try done.
  unfold cu_eqb. rewrite andb_true_iff, N.eqb_eq, IH.
  split; [by intros [-> ->] | by intros [= -> ->]].
Qed.

Lemma trimStart_suffix s :
  exists ws, s = ws ++ trimStart s /\ Forall (fun c => is_whitespace c = true) ws.
Proof.
  induction s as [|c s IH]; simpl.
  - by exists [].
  - destruct (is_whitespace c) eqn:Hc.
    + destruct IH as (ws & Hs & Hws). exists (c :: ws). simpl.
      split; [congruence | by constructor].
    + by exists [].
Qed.

Lemma trimStart_head s c r : trimStart s = c :: r -> is_whitespace c = false.
Proof.
  induction s as [|d s IH]; simpl; [done|].
  destruct (is_whitespace d) eqn:Hd; [auto|].
  intros [= <- <-]. done.
Qed.

Lemma trimStart_fixed c s : is_whitespace c = false -> trimStart (c :: s) = c :: s.
Proof. intros H. simpl. by rewrite H. Qed.

Lemma trimStart_length s : (length (trimStart s) <= length s)%nat.
Proof.
  induction s as [|c s IH]; simpl; [lia|].
  destruct (is_whitespace c); simpl; lia.
Qed.

Lemma trimStart_Forall (P : N -> Prop) s : Forall P s -> Forall P (trimStart s).
Proof.
  induction 1 as [|c s Hc Hs IH]; simpl; [constructor|].
  destruct (is_whitespace c); [done | by constructor].
Qed.

Lemma trimEnd_length s : (length (trimEnd s) <= length s)%nat.
Proof.
  unfold trimEnd. rewrite length_rev.
  etrans; [apply trimStart_length|]. by rewrite length_rev.
Qed.

Lemma trimEnd_Forall (P : N -> Prop) s : Forall P s -> Forall P (trimEnd s).
Proof.
  intros H. unfold trimEnd. apply Forall_rev, trimStart_Forall.
  by apply Forall_rev.
Qed.

Lemma trim_length s : (length (trim s) <= length s)%nat.
Proof.
  unfold trim. etrans; [apply trimEnd_length | apply trimStart_length].
Qed.

Lemma trim_Forall (P : N -> Prop) s : Forall P s -> Forall P (trim s).
Proof. intros H. by apply trimEnd_Forall, trimStart_Forall. Qed.

Lemma strip_angle_Forall s : Forall (fun c => is_angle c = false) (strip_angle s).
Proof.
  unfold strip_angle. induction s as [|c s IH]; simpl; [constructor|].
  destruct (is_angle c) eqn:Hc; simpl; [done | by constructor].
Qed.

Lemma strip_angle_clean s :
  Forall (fun c => is_angle c = false) s -> strip_angle s = s.
Proof.
  unfold strip_angle. induction 1 as [|c s Hc Hs IH]; simpl; [done|].
  rewrite Hc. simpl. by rewrite IH.
Qed.

Lemma is_empty_true (s : list N) : is_empty s = true <-> s = [].
Proof. by destruct s. Qed.

(** The sanitizer is stripping after trimming, then cutting: the early
    return for an empty trimmed value changes nothing. *)
Lemma sanitizePlainText_eq value n :
  sanitizePlainText value n = slice0 n (strip_angle (trim value)).
Proof.
  unfold sanitizePlainText, slice0.
  destruct (trim value) as [|c t]; simpl; [by rewrite take_nil | done].
Qed.

Lemma sanitizePlainText_clean value n :
  Forall (fun c => is_angle c = false) (sanitizePlainText value n).
Proof.
  rewrite sanitizePlainText_eq. unfold slice0.
  apply Forall_take, strip_angle_Forall.
Qed.

Lemma sanitizePlainText_length value n :
  (length (sanitizePlainText value n) <= n)%nat.
Proof. rewrite sanitizePlainText_eq. unfold slice0. rewrite length_take. lia. Qed.

(** ** The steps of the validator *)

Lemma push_errors e st : (push e st).1 <> [].
Proof. unfold push. simpl. by destruct (st.1). Qed.

Lemma text_step_shape raw f :
  (exists e, forall st, text_step raw st f = push e st)
  \/ (exists v, forall st, text_step raw st f = set_field (field_name f) (VString v) st).
Proof.
  unfold text_step.
  destruct (raw !! js (field_name f)) as [[rawValue|file]|]; eauto.
  destruct (is_empty _); eauto.
Qed.

Lemma date_step_shape `{Host} raw :
  (exists e, forall st, date_step raw st = push e st)
  \/ (exists v, forall st, date_step raw st = set_field "date" (VString v) st).
Proof.
  unfold date_step.
  destruct (raw !! js "date") as [[rawDate|file]|]; eauto.
  destruct (normalizeDate rawDate) as [[|c d]|]; eauto.
Qed.

Lemma time_step_shape raw :
  (exists e, forall st, time_step raw st = push e st)
  \/ (exists v, forall st, time_step raw st = set_field "time" (VString v) st).
Proof.
  unfold time_step.
  destruct (raw !! js "time") as [[rawTime|file]|]; eauto.
  destruct (normalizeTime rawTime) as [[|c d]|]; eauto.
Qed.

Lemma mode_step_shape `{Host} raw :
  (exists e, forall st, mode_step raw st = push e st)
  \/ (exists v, forall st, mode_step raw st = set_field "mode" (VString v) st).
Proof. unfold mode_step. destruct (negb _); eauto. Qed.

Lemma array_step_shape field raw :
  (exists e, forall st, array_step field raw st = push e st)
  \/ (exists l, forall st, array_step field raw st = set_field field (string_array l) st).
Proof.
  unfold array_step.
  destruct (if is_empty _ then None else _); eauto.
Qed.

Lemma image_step_shape `{Host} raw :
  (exists e, forall st, image_step raw st = push e st)
  \/ (exists v, forall st, image_step raw st = set_field "image" (VString v) st).
Proof.
  unfold image_step.
  destruct (ensureSecureImageUrl _) as [[|c d]|]; eauto.
Qed.

(** A state that holds an error keeps one, whatever is set later. *)
Lemma Settled_push e st : Settled (push e st).
Proof. right. apply push_errors. Qed.

Lemma set_field_errors k v st : st.1 <> [] -> (set_field k v st).1 <> [].
Proof. done. Qed.

Ltac error_stays :=
  right; repeat apply set_field_errors; apply push_errors.

Lemma validate_settled `{Host} raw :
  Settled (image_step raw (array_step "tags" raw (array_step "agenda" raw
    (mode_step raw (time_step raw (date_step raw
      (foldl (text_step raw) ([], ∅) TEXT_FIELD_LIMITS))))))).
Proof.
  destruct (image_step_shape raw) as [[e ->]|[image ->]]; [error_stays|].
  destruct (array_step_shape "tags" raw) as [[e ->]|[tags ->]]; [error_stays|].
  destruct (array_step_shape "agenda" raw) as [[e ->]|[agenda ->]];
    [error_stays|].
  destruct (mode_step_shape raw) as [[e ->]|[mode ->]]; [error_stays|].
  destruct (time_step_shape raw) as [[e ->]|[time ->]]; [error_stays|].
  destruct (date_step_shape raw) as [[e ->]|[date ->]]; [error_stays|].
  simpl foldl.
  destruct (text_step_shape raw f_organizer) as [[e ->]|[organizer ->]];
    [error_stays|].
  destruct (text_step_shape raw f_audience) as [[e ->]|[audience ->]];
    [error_stays|].
  destruct (text_step_shape raw f_location) as [[e ->]|[location ->]];
    [error_stays|].
  destruct (text_step_shape raw f_venue) as [[e ->]|[venue ->]];
    [error_stays|].
  destruct (text_step_shape raw f_overview) as [[e ->]|[overview ->]];
    [error_stays|].
  destruct (text_step_shape raw f_description) as [[e ->]|[description ->]];
    [error_stays|].
  destruct (text_step_shape raw f_title) as [[e ->]|[title ->]];
    [error_stays|].
  left. split; [done|].
  by exists {| title := title; description := description;
               overview := overview; venue := venue; location := location;
               date := date; time := time; mode := mode;
               audience := audience; agenda := agenda;
               organizer := organizer; tags := tags; image := image |}.
Qed.

(** C1.  Whatever the submission, the validator returns either no error
    and an object that holds every field of a [SanitizedEvent] (and nothing
    else), or at least one error and no object. *)
Theorem validate_record_or_errors `{Host} (raw : gmap (list N) FormDataEntryValue) :
  let r := validateAndSanitizeEvent raw in
  (errors r = [] /\ exists e : SanitizedEvent, sanitizedEvent r = Some (to_object e))
  \/ (errors r <> [] /\ sanitizedEvent r = None).
Proof.
  pose proof (validate_settled raw) as Hs.
  unfold validateAndSanitizeEvent. simpl.
  set (st := image_step raw _) in *.
  destruct Hs as [[Herr [e He]]|Herr].
  - left. rewrite Herr. split; [done|]. exists e. by rewrite He.
  - right. split; [done|]. by destruct (st.1).
Qed.

(** ** Text fields *)

(** C3 as stated fails on a value that is only brackets: its trimmed form
    is not empty, yet the validator records the error, where the stated
    rule makes the empty string the title. *)
Lemma text_step_not_as_specified :
  trim (js "<>") = js "<>"
  /\ text_step {[ js "title" := FString (js "<>") ]} ([], ∅) f_title
     = (["title cannot be empty"], ∅)
  /\ text_step_as_specified {[ js "title" := FString (js "<>") ]} ([], ∅) f_title
     = ([], {[ "title" := VString [] ]}).
Proof. repeat split. Qed.

(** C3, amended.  A text field given as a string is trimmed, stripped of
    every [<] and [>], and then cut at the field's maximum; the error
    "<field> cannot be empty" is recorded when that result is empty, which
    it is when the trimmed value is empty, and otherwise the result is the
    field.  The maxima are those of the table, and the title
    ["  <b>Hi</b>  "] becomes ["bHi/b"]. *)
Theorem text_field_sanitized (raw : gmap (list N) FormDataEntryValue)
    (st : State) (f : text_field) (v : list N) :
  raw !! js (field_name f) = Some (FString v) ->
  let clean := slice0 (maxLength f) (strip_angle (trim v)) in
  text_step raw st f
  = (if is_empty clean
     then push (field_name f +:+ " cannot be empty") st
     else set_field (field_name f) (VString clean) st)
  /\ (trim v = [] -> clean = [])
  /\ Forall (fun c => c <> LT_SIGN /\ c <> GT_SIGN) clean
  /\ (length clean <= maxLength f)%nat
  /\ map (fun f => (field_name f, maxLength f)) TEXT_FIELD_LIMITS
     = [("title", 100); ("description", 1000); ("overview", 500);
        ("venue", 100); ("location", 150); ("audience", 150);
        ("organizer", 150)]%nat
  /\ sanitizePlainText (js "  <b>Hi</b>  ") 100 = js "bHi/b".
Proof.
  intros Hraw clean. subst clean.
  rewrite <- sanitizePlainText_eq.
  repeat split.
  - unfold text_step. by rewrite Hraw.
  - intros Ht. unfold sanitizePlainText. by rewrite Ht.
  - eapply Forall_impl; [apply sanitizePlainText_clean|].
    intros c Hc. unfold is_angle in Hc.
    apply orb_false_iff in Hc as [H1 H2].
    apply N.eqb_neq in H1, H2. done.
  - apply sanitizePlainText_length.
Qed.

Lemma text_field_sanitized_witness :
  let raw : gmap (list N) FormDataEntryValue :=
    {[ js "title" := FString (js "  <b>Hi</b>  ") ]} in
  raw !! js "title" = Some (FString (js "  <b>Hi</b>  "))
  /\ text_step raw ([], ∅) f_title = ([], {[ "title" := VString (js "bHi/b") ]}).
Proof.
  split; [reflexivity|].
  apply (text_field_sanitized
           {[ js "title" := FString (js "  <b>Hi</b>  ") ]} ([], ∅) f_title
           (js "  <b>Hi</b>  ")).
  reflexivity.
Defined.

(** ** The error list *)

Lemma logs_of_shape (step : State -> State) k :
  (exists e, forall st, step st = push e st)
  \/ (exists v, forall st, step st = set_field k v st) ->
  logs step.
Proof.
  intros [[e He]|[v Hv]] st.
  - by rewrite !He.
  - rewrite !Hv. simpl. by rewrite app_nil_r.
Qed.

Lemma text_step_logs raw f : logs (fun st => text_step raw st f).
Proof.
  apply (logs_of_shape _ (field_name f)).
  destruct (text_step_shape raw f) as [?|[v ?]]; eauto.
Qed.

Lemma date_step_logs `{Host} raw : logs (date_step raw).
Proof.
  apply (logs_of_shape _ "date").
  destruct (date_step_shape raw) as [?|[v ?]]; eauto.
Qed.

Lemma time_step_logs raw : logs (time_step raw).
Proof.
  apply (logs_of_shape _ "time").
  destruct (time_step_shape raw) as [?|[v ?]]; eauto.
Qed.

Lemma mode_step_logs `{Host} raw : logs (mode_step raw).
Proof.
  apply (logs_of_shape _ "mode").
  destruct (mode_step_shape raw) as [?|[v ?]]; eauto.
Qed.

Lemma array_step_logs field raw : logs (array_step field raw).
Proof.
  apply (logs_of_shape _ field).
  destruct (array_step_shape field raw) as [?|[v ?]]; eauto.
Qed.

Lemma image_step_logs `{Host} raw : logs (image_step raw).
Proof.
  apply (logs_of_shape _ "image").
  destruct (image_step_shape raw) as [?|[v ?]]; eauto.
Qed.

(** The error list is what the thirteen checks add, in the order of the
    source: the checks do not stop at the first error. *)
Lemma errors_decompose `{Host} raw :
  errors (validateAndSanitizeEvent raw)
  = (text_step raw ([], ∅) f_title).1
    ++ (text_step raw ([], ∅) f_description).1
    ++ (text_step raw ([], ∅) f_overview).1
    ++ (text_step raw ([], ∅) f_venue).1
    ++ (text_step raw ([], ∅) f_location).1
    ++ (text_step raw ([], ∅) f_audience).1
    ++ (text_step raw ([], ∅) f_organizer).1
    ++ (date_step raw ([], ∅)).1
    ++ (time_step raw ([], ∅)).1
    ++ (mode_step raw ([], ∅)).1
    ++ (array_step "agenda" raw ([], ∅)).1
    ++ (array_step "tags" raw ([], ∅)).1
    ++ (image_step raw ([], ∅)).1.
Proof.
  unfold validateAndSanitizeEvent. cbn [errors foldl TEXT_FIELD_LIMITS].
  rewrite (image_step_logs raw _), (array_step_logs "tags" raw _),
    (array_step_logs "agenda" raw _), (mode_step_logs raw _),
    (time_step_logs raw _), (date_step_logs raw _).
  rewrite (text_step_logs raw f_organizer _), (text_step_logs raw f_audience _),
    (text_step_logs raw f_location _), (text_step_logs raw f_venue _),
    (text_step_logs raw f_overview _), (text_step_logs raw f_description _).
  by rewrite <- !app_assoc.
Qed.

Lemma errors_no_record `{Host} raw :
  errors (validateAndSanitizeEvent raw) <> [] ->
  sanitizedEvent (validateAndSanitizeEvent raw) = None.
Proof.
  unfold validateAndSanitizeEvent. cbn [errors sanitizedEvent].
  by destruct (_.1).
Qed.

Lemma occurrences_app m l1 l2 :
  occurrences m (l1 ++ l2) = (occurrences m l1 + occurrences m l2)%nat.
Proof. apply count_occ_app. Qed.

Lemma occurrences_pos m l : (0 < occurrences m l)%nat -> l <> [].
Proof. intros Hm ->. simpl in Hm. lia. Qed.

(** Case analysis on the check of one step, started from the empty state:
    first on what the submission holds for the field, then on the checks
    of the value. *)
Ltac step_cases :=
  unfold text_step, date_step, time_step, mode_step, array_step, image_step,
    ensureSecureImageUrl, string_or_empty, is_string;
  cbn [field_name];
  repeat match goal with
  | |- context [@lookup _ _ _ _ ?k ?m] => destruct (m !! k) as [[?|?]|]
  end;
  rewrite ?URL_parse_empty;
  cbn [negb];
  try (intros ?; simplify_eq);
  repeat (case_match; simplify_eq; try reflexivity);
  try done.

(** Every summand of a count that is zero whatever the submission is
    replaced by zero. *)
Ltac zero_chunks :=
  repeat match goal with
  | |- context [occurrences ?m (?step).1] =>
      replace (occurrences m (step).1) with 0%nat by step_cases
  end.

Ltac count_errors :=
  rewrite errors_decompose, !occurrences_app; zero_chunks;
  cbn [Nat.add]; rewrite ?Nat.add_0_r; step_cases.

(** C7 as stated fails on the empty submission: mode, agenda, tags and
    image are missing, and no error says that one of them is required. *)
Lemma missing_fields_without_required_error :
  errors (@validateAndSanitizeEvent plain_host ∅)
  = ["title is required"; "description is required"; "overview is required";
     "venue is required"; "location is required"; "audience is required";
     "organizer is required"; "date is required"; "time is required";
     "mode must be one of: online, offline, hybrid";
     "agenda must be an array of strings with at least one item";
     "tags must be an array of strings with at least one item";
     "image must be a valid HTTPS URL"]
  /\ occurrences "mode is required" (errors (@validateAndSanitizeEvent plain_host ∅)) = 0%nat.
Proof. split; reflexivity. Qed.

(** C7, amended.  A field is missing when the submission has no string
    for it.  Each of title, description, overview, venue, location,
    audience, organizer, date and time has the entry "<field> is required"
    exactly once when it is missing and not at all when it is present.  For
    mode, agenda, tags and image there is never such an entry: a missing
    one is reported once by the error of its format.  When any of the
    thirteen fields is missing, no record is returned. *)
Theorem required_errors `{Host} (raw : gmap (list N) FormDataEntryValue) :
  let r := validateAndSanitizeEvent raw in
  let missing f := negb (is_string (raw !! js f)) in
  Forall (fun f => occurrences (f +:+ " is required") (errors r)
                   = if missing f then 1%nat else 0%nat)
    ["title"; "description"; "overview"; "venue"; "location"; "audience";
     "organizer"; "date"; "time"]
  /\ Forall (fun f => occurrences (f +:+ " is required") (errors r) = 0%nat)
       ["mode"; "agenda"; "tags"; "image"]
  /\ (missing "mode" = true ->
      occurrences "mode must be one of: online, offline, hybrid" (errors r)
      = 1%nat)
  /\ (missing "agenda" = true ->
      occurrences "agenda must be an array of strings with at least one item"
        (errors r) = 1%nat)
  /\ (missing "tags" = true ->
      occurrences "tags must be an array of strings with at least one item"
        (errors r) = 1%nat)
  /\ (missing "image" = true ->
      occurrences "image must be a valid HTTPS URL" (errors r) = 1%nat)
  /\ (Exists (fun f => missing f = true)
        ["title"; "description"; "overview"; "venue"; "location"; "audience";
         "organizer"; "date"; "time"; "mode"; "agenda"; "tags"; "image"] ->
      sanitizedEvent r = None).
Proof.
  intros r missing. subst r.
  assert (Hnine : Forall (fun f =>
      occurrences (f +:+ " is required") (errors (validateAndSanitizeEvent raw))
      = if missing f then 1%nat else 0%nat)
    ["title"; "description"; "overview"; "venue"; "location"; "audience";
     "organizer"; "date"; "time"]).
  { subst missing. repeat constructor; cbn [String.append]; count_errors. }
  assert (Hmode : missing "mode" = true ->
      occurrences "mode must be one of: online, offline, hybrid"
        (errors (validateAndSanitizeEvent raw)) = 1%nat).
  { subst missing. cbn beta. count_errors. }
  assert (Hagenda : missing "agenda" = true ->
      occurrences "agenda must be an array of strings with at least one item"
        (errors (validateAndSanitizeEvent raw)) = 1%nat).
  { subst missing. cbn beta. count_errors. }
  assert (Htags : missing "tags" = true ->
      occurrences "tags must be an array of strings with at least one item"
        (errors (validateAndSanitizeEvent raw)) = 1%nat).
  { subst missing. cbn beta. count_errors. }
  assert (Himage : missing "image" = true ->
      occurrences "image must be a valid HTTPS URL"
        (errors (validateAndSanitizeEvent raw)) = 1%nat).
  { subst missing. cbn beta. count_errors. }
  split; [exact Hnine|].
  split; [repeat constructor; cbn [String.append]; count_errors|].
  do 4 (split; [assumption|]).
  intros Hex. apply errors_no_record.
  rewrite !Forall_cons in Hnine.
  destruct Hnine as (H1 & H2 & H3 & H4 & H5 & H6 & H7 & H8 & H9 & _).
  rewrite !Exists_cons, Exists_nil in Hex.
  repeat destruct Hex as [Hm|Hex]; try done;
    try match goal with
    | Hk : occurrences ?m _ = (if missing ?f then _ else _),
      Hf : missing ?f = true |- _ =>
        rewrite Hf in Hk; apply (occurrences_pos m); rewrite Hk; lia
    end.
  - eapply occurrences_pos. rewrite Hmode; [lia | done].
  - eapply occurrences_pos. rewrite Hagenda; [lia | done].
  - eapply occurrences_pos. rewrite Htags; [lia | done].
  - eapply occurrences_pos. rewrite Himage; [lia | done].
Qed.

Lemma required_errors_witness :
  negb (is_string ((∅ : gmap (list N) FormDataEntryValue) !! js "mode")) = true
  /\ occurrences "mode must be one of: online, offline, hybrid"
       (errors (@validateAndSanitizeEvent plain_host ∅)) = 1%nat
  /\ sanitizedEvent (@validateAndSanitizeEvent plain_host ∅) = None.
Proof.
  pose proof (@required_errors plain_host ∅) as Hreq. cbv zeta in Hreq.
  destruct Hreq as (_ & _ & Hmode & _ & _ & _ & Hnone).
  split; [reflexivity|]. split; [by apply Hmode|].
  apply Hnone. by constructor.
Defined.

(** ** Arrays *)

Lemma parseStringArray_of_array value items :
  JSON_parse value = Some (VArray items) ->
  parseStringArray value = unless_empty (clean_texts (map item_text items)).
Proof.
  intros Hp. unfold parseStringArray. rewrite Hp.
  fold item_text. unfold clean_texts, unless_empty.
  by destruct (map strip_angle _).
Qed.

Lemma parseStringArray_of_strings value (texts : list (list N)) :
  JSON_parse value = None ->
  (if includes COMMA value then split COMMA value else [value]) = texts ->
  parseStringArray value = unless_empty (clean_texts (map trim texts)).
Proof.
  intros Hp Ht. unfold parseStringArray. rewrite Hp, Ht.
  fold item_text. unfold fmap, list_fmap. fold (map VString texts).
  rewrite map_map. cbn [item_text].
  unfold clean_texts, unless_empty.
  by destruct (map strip_angle _).
Qed.

(** What the validator does with an array field, by what the parser
    gives. *)
Lemma array_step_result field raw st :
  array_step field raw st
  = match raw !! js field with
    | Some (FString (c :: s)) =>
        match parseStringArray (c :: s) with
        | Some l => set_field field (string_array l) st
        | None => push (array_error field) st
        end
    | _ => push (array_error field) st
    end.
Proof.
  unfold array_step, string_or_empty, array_error.
  destruct (raw !! js field) as [[[|c s]|file]|]; try done.
Qed.

(** The result of [parseStringArray] has at least one element. *)
Lemma parseStringArray_nonempty value l :
  parseStringArray value = Some l -> l <> [].
Proof.
  unfold parseStringArray.
  destruct (match JSON_parse value with Some v => v | None => _ end);
    try done.
  destruct (map strip_angle _); [done | by intros [= <-]].
Qed.

(** C5.  The array parser tries [JSON.parse] first.  When that fails, the
    text is split at its commas if it has one and is a single element
    otherwise.  A parsed value that is not a list is rejected.  Of a list,
    every element that is not a string counts as the empty string, strings
    are trimmed, empty elements are dropped, and brackets are stripped from
    the rest; an empty result is rejected.  The validator reports a
    rejected or missing array with the error of its field.  The texts
    [["AI","Cloud"]] and [AI,Cloud] both give AI and Cloud, and [[]] is
    rejected. *)
Theorem parseStringArray_spec (value : list N) :
  (forall items, JSON_parse value = Some (VArray items) ->
     parseStringArray value = unless_empty (clean_texts (map item_text items)))
  /\ (forall v, JSON_parse value = Some v -> (forall items, v <> VArray items) ->
        parseStringArray value = None)
  /\ (JSON_parse value = None -> includes COMMA value = true ->
        parseStringArray value
        = unless_empty (clean_texts (map trim (split COMMA value))))
  /\ (JSON_parse value = None -> includes COMMA value = false ->
        parseStringArray value = unless_empty (clean_texts [trim value]))
  /\ (forall field raw st,
        raw !! js field = Some (FString value) ->
        array_step field raw st
        = match (if is_empty value then None else parseStringArray value) with
          | Some l => set_field field (string_array l) st
          | None => push (array_error field) st
          end)
  /\ parseStringArray (js "[" ++ quoted "AI" ++ js "," ++ quoted "Cloud" ++ js "]")
     = Some [js "AI"; js "Cloud"]
  /\ parseStringArray (js "AI,Cloud") = Some [js "AI"; js "Cloud"]
  /\ parseStringArray (js "[]") = None.
Proof.
  split; [intros items; apply parseStringArray_of_array|].
  split.
  { intros v Hp Hv. unfold parseStringArray. rewrite Hp.
    destruct v; try done. by destruct (Hv items). }
  split.
  { intros Hp Hc. apply parseStringArray_of_strings; [done | by rewrite Hc]. }
  split.
  { intros Hp Hc. apply (parseStringArray_of_strings value [value]);
      [done | by rewrite Hc]. }
  split.
  { intros field raw st Hraw. rewrite array_step_result, Hraw.
    by destruct value. }
  repeat split; reflexivity.
Qed.

Lemma parseStringArray_spec_witness :
  JSON_parse (js "a, <b> ,c") = None
  /\ includes COMMA (js "a, <b> ,c") = true
  /\ parseStringArray (js "a, <b> ,c") = Some [js "a"; js "b"; js "c"].
Proof.
  split; [reflexivity|]. split; [reflexivity|].
  destruct (parseStringArray_spec (js "a, <b> ,c")) as (_ & _ & Hsplit & _).
  rewrite Hsplit; reflexivity.
Defined.

(** C6 fails where an element is made of brackets only: it is not empty
    when the empty elements are dropped, and it is the empty string after
    the brackets are stripped.  The validator returns a record whose tags
    are one empty string. *)
Lemma tags_may_hold_empty_string :
  parseStringArray (js "<") = Some [[]]
  /\ errors (@validateAndSanitizeEvent plain_host
               (sample_raw (js "<") (js "Opening"))) = []
  /\ (sanitizedEvent (@validateAndSanitizeEvent plain_host
                        (sample_raw (js "<") (js "Opening")))
        ≫= lookup "tags") = Some (string_array [[]]).
Proof. repeat split; vm_compute; reflexivity. Qed.

(** ** Pagination *)


(** ** What the handler persists *)

(** A branch of the handler that answers without calling [Event.create]. *)
Ltac no_call :=
  let Hc := fresh "Hc" in
  intros Hc; cbv [created reply] in Hc; discriminate Hc.

(** Whenever [Event.create] is called, its argument is the validator's
    record with [tags] and [agenda] replaced by what [JSON.parse] made of
    the first form entries of those names, as they were submitted. *)

Lemma POST_created `{Host} `{Services} (formData : FormData) doc :
  created (POST formData) = Some doc ->
  exists secure_url record tags agenda,
    sanitizedEvent (validateAndSanitizeEvent
                      (<[js "image" := FString secure_url]> (fromEntries formData)))
      = Some record
    /\ JSON_parse (entry_to_string (FormData_get (js "tags") formData)) = Some tags
    /\ JSON_parse (entry_to_string (FormData_get (js "agenda") formData)) = Some agenda
    /\ doc = <["agenda" := agenda]> (<["tags" := tags]> record).
Proof.
  unfold POST.
  set (ptags := JSON_parse (entry_to_string (FormData_get (js "tags") formData))).
  set (pagenda := JSON_parse (entry_to_string (FormData_get (js "agenda") formData))).
  destruct (negb connectDB); [no_call|].
  destruct (FormData_get (js "image") formData) as [[[|c s]|file]|];
    try no_call.
  - destruct ptags, pagenda; no_call.
  - destruct ptags as [tags|]; [|no_call].
    destruct pagenda as [agenda|]; [|no_call].
    destruct (negb _); [no_call|].
    destruct (maxSize <? _); [no_call|].
    destruct (upload file) as [secure_url|]; [|no_call].
    destruct (sanitizedEvent _) as [record|] eqn:Hr; [|no_call].
    cbn [created]. intros [= <-]. by exists secure_url, record, tags, agenda.
Qed.

(** C2 fails on a submission whose tags need sanitizing: the validator's
    record holds the tags trimmed and without brackets, and the document
    passed to [Event.create] holds them as submitted. *)
Lemma POST_persists_unsanitized_tags :
  let tags := js "[" ++ quoted " AI " ++ js "," ++ quoted "<b>Cloud</b>" ++ js "]" in
  let agenda := js "[" ++ quoted "Opening" ++ js "]" in
  (sanitizedEvent (@validateAndSanitizeEvent plain_host (sample_raw tags agenda))
     ≫= lookup "tags")
  = Some (string_array [js "AI"; js "bCloud/b"])
  /\ (created (@POST plain_host sample_services (sample_form tags agenda))
        ≫= lookup "tags")
     = Some (string_array [js " AI "; js "<b>Cloud</b>"])
  /\ status (response (@POST plain_host sample_services (sample_form tags agenda)))
     = 201.
Proof. repeat split; vm_compute; reflexivity. Qed.

(** A list of tags written with commas passes the validator, and the
    handler answers 500 before it validates: [JSON.parse] throws on it. *)
Lemma POST_rejects_comma_separated_tags :
  let agenda := js "[" ++ quoted "Opening" ++ js "]" in
  (sanitizedEvent (@validateAndSanitizeEvent plain_host
                     (sample_raw (js "AI,Cloud") agenda))
     ≫= lookup "tags")
  = Some (string_array [js "AI"; js "Cloud"])
  /\ @POST plain_host sample_services (sample_form (js "AI,Cloud") agenda)
     = reply (respond 500 "Event Creation Failed").
Proof. repeat split; vm_compute; reflexivity. Qed.

(** ** Times *)

Lemma is_digit_range c : is_digit c = true <-> (48 <= c <= 57)%N.
Proof. unfold is_digit. rewrite andb_true_iff, !N.leb_le. done. Qed.

Lemma is_whitespace_range c :
  is_whitespace c = true -> (c <= 13 \/ c = 32 \/ 160 <= c)%N.
Proof.
  unfold is_whitespace.
  rewrite !orb_true_iff, !andb_true_iff, !N.leb_le, !N.eqb_eq. lia.
Qed.

Lemma not_whitespace c : (33 <= c <= 159)%N -> is_whitespace c = false.
Proof.
  intros Hc. destruct (is_whitespace c) eqn:Hw; [|done].
  apply is_whitespace_range in Hw. lia.
Qed.

Lemma digit_not_whitespace c : is_digit c = true -> is_whitespace c = false.
Proof. rewrite is_digit_range. intros Hc. apply not_whitespace. lia. Qed.

Lemma trimStart_app ws s :
  Forall (fun c => is_whitespace c = true) ws -> trimStart (ws ++ s) = trimStart s.
Proof. induction 1 as [|c ws Hc _ IH]; simpl; [done | by rewrite Hc]. Qed.

Lemma span_digits_all ds :
  Forall (fun c => is_digit c = true) ds -> span_digits ds = (ds, []).
Proof.
  induction 1 as [|c ds Hc _ IH]; simpl; [done|]. by rewrite Hc, IH.
Qed.

Lemma digits_value_nonneg ds :
  Forall (fun c => is_digit c = true) ds -> 0 <= digits_value ds.
Proof.
  unfold digits_value. intros Hds.
  assert (Hgen : forall acc, 0 <= acc ->
            0 <= fold_left (fun acc c => 10 * acc + digit_value c) ds acc).
  { induction Hds as [|c ds Hc _ IH]; intros acc Hacc; simpl; [done|].
    apply IH. apply is_digit_range in Hc. unfold digit_value. lia. }
  by apply Hgen.
Qed.

(** [parseInt] of a run of digits is the number they write. *)
Lemma parseInt_digits c ds :
  Forall (fun c => is_digit c = true) (c :: ds) ->
  parseInt (c :: ds) = Num (digits_value (c :: ds)).
Proof.
  intros Hds. pose proof Hds as Hall.
  inversion Hds as [|? ? Hc _]; subst.
  unfold parseInt. rewrite trimStart_fixed by by apply digit_not_whitespace.
  apply is_digit_range in Hc.
  replace (c =? MINUS_SIGN)%N with false
    by (symmetry; apply N.eqb_neq; unfold MINUS_SIGN; lia).
  replace (c =? PLUS_SIGN)%N with false
    by (symmetry; apply N.eqb_neq; unfold PLUS_SIGN; lia).
  rewrite (span_digits_all _ Hall). cbn [fst].
  f_equal. lia.
Qed.

(** Two digits are what [toString] and [padStart] make of a number below
    one hundred. *)
Lemma padStart_two_digits n :
  0 <= n < 100 -> padStart 2 (toString (Num n)) = digits 2 n.
Proof.
  intros Hn.
  assert (Hall : forallb (fun k => bool_decide
            (padStart 2 (toString (Num (Z.of_nat k))) = digits 2 (Z.of_nat k)))
            (seq 0 100) = true) by (vm_compute; reflexivity).
  rewrite forallb_forall in Hall.
  specialize (Hall (Z.to_nat n)).
  rewrite Z2Nat.id in Hall by lia.
  apply bool_decide_eq_true in Hall; [done|].
  apply in_seq. lia.
Qed.

Lemma match_period_complete p sfx :
  period_text p sfx -> exists cap, match_period sfx = Some cap /\ captured p cap.
Proof.
  destruct p as [q|]; simpl.
  - intros (ws & a & m & -> & Hws & Ha & Hm).
    exists (Some [a; m]). split; [|done].
    unfold match_period.
    assert (Hna : is_whitespace a = false).
    { apply not_whitespace. destruct q, Ha; subst; simpl; lia. }
    destruct (ws ++ [a; m]) eqn:Hnil; [by destruct ws|]. rewrite <- Hnil.
    rewrite trimStart_app by done. rewrite trimStart_fixed by done.
    unfold matches_letter_i.
    destruct q, Ha, Hm; subst; reflexivity.
  - intros ->. by exists None.
Qed.

Lemma match_period_sound sfx cap :
  match_period sfx = Some cap -> exists p, period_text p sfx /\ captured p cap.
Proof.
  unfold match_period. destruct sfx as [|c sfx].
  - intros [= <-]. by exists None.
  - destruct (trimStart_suffix (c :: sfx)) as (ws & Hs & Hws).
    destruct (trimStart (c :: sfx)) as [|a [|m [|? ?]]]; try done.
    destruct (_ && _) eqn:Hl; [|done]. intros [= <-].
    apply andb_true_iff in Hl as [Ha Hm].
    unfold matches_letter_i in Ha, Hm.
    assert (Hm' : (m = 77 \/ m = 109)%N).
    { apply orb_true_iff in Hm as [Hm|Hm]; apply N.eqb_eq in Hm; lia. }
    apply orb_true_iff in Ha as [Ha|Ha];
      apply orb_true_iff in Ha as [Ha|Ha]; apply N.eqb_eq in Ha.
    1,2: exists (Some AM); split; [|simpl; lia];
      exists ws, a, m; simpl; rewrite Hs; repeat split; [done | lia..].
    1,2: exists (Some PM); split; [|simpl; lia];
      exists ws, a, m; simpl; rewrite Hs; repeat split; [done | lia..].
Qed.

Lemma match_minutes_complete H M sfx cap :
  length M = 2%nat -> Forall (fun c => is_digit c = true) M ->
  match_period sfx = Some cap ->
  match_minutes H (COLON :: M ++ sfx) = Some (H, M, cap).
Proof.
  intros Hlen HM Hp.
  destruct M as [|d1 [|d2 [|? ?]]]; try done.
  inversion HM as [|? ? H1 HM']; subst. inversion HM' as [|? ? H2 _]; subst.
  simpl. rewrite H1, H2, Hp. done.
Qed.

Lemma match_minutes_sound H rest r :
  match_minutes H rest = Some r ->
  exists M sfx cap,
    r = (H, M, cap) /\ rest = COLON :: M ++ sfx /\ length M = 2%nat
    /\ Forall (fun c => is_digit c = true) M /\ match_period sfx = Some cap.
Proof.
  unfold match_minutes.
  destruct rest as [|c [|d1 [|d2 rest]]]; try done.
  destruct (_ && _) eqn:Hc; [|done].
  apply andb_true_iff in Hc as [Hc H2]. apply andb_true_iff in Hc as [Hc H1].
  apply N.eqb_eq in Hc as ->.
  destruct (match_period rest) as [cap|] eqn:Hp; [|done].
  intros [= <-]. exists [d1; d2], rest, cap.
  repeat split; try done. by repeat constructor.
Qed.

Lemma colon_not_digit : is_digit COLON = false.
Proof. reflexivity. Qed.

Lemma match_timeRegex_complete H M sfx cap :
  (length H = 1 \/ length H = 2)%nat ->
  Forall (fun c => is_digit c = true) H ->
  length M = 2%nat -> Forall (fun c => is_digit c = true) M ->
  match_period sfx = Some cap ->
  match_timeRegex (H ++ COLON :: M ++ sfx) = Some (H, M, cap).
Proof.
  intros HlenH HH HlenM HM Hp.
  pose proof (match_minutes_complete) as Hmin.
  destruct H as [|d1 [|d2 [|? ?]]]; simpl in HlenH; try lia.
  - inversion HH as [|? ? H1 _]; subst.
    cbn [app match_timeRegex]. rewrite H1, colon_not_digit.
    by apply Hmin.
  - inversion HH as [|? ? H1 HH']; subst. inversion HH' as [|? ? H2 _]; subst.
    cbn [app match_timeRegex]. rewrite H1, H2.
    by rewrite (Hmin [d1; d2] M sfx cap).
Qed.

Lemma match_timeRegex_sound s r :
  match_timeRegex s = Some r ->
  exists H M sfx cap,
    r = (H, M, cap) /\ s = H ++ COLON :: M ++ sfx
    /\ (length H = 1 \/ length H = 2)%nat
    /\ Forall (fun c => is_digit c = true) H
    /\ length M = 2%nat /\ Forall (fun c => is_digit c = true) M
    /\ match_period sfx = Some cap.
Proof.
  unfold match_timeRegex. destruct s as [|d1 s1]; [done|].
  destruct (is_digit d1) eqn:H1; [|done].
  set (two := match s1 with [] => None | d2 :: s2 => _ end).
  destruct two as [r2|] eqn:Htwo; subst two.
  - intros [= <-]. destruct s1 as [|d2 s2]; [done|].
    destruct (is_digit d2) eqn:H2; [|done].
    apply match_minutes_sound in Htwo as (M & sfx & cap & -> & -> & ? & ? & ?).
    exists [d1; d2], M, sfx, cap. repeat split; auto.
  - intros Hone.
    apply match_minutes_sound in Hone as (M & sfx & cap & -> & -> & ? & ? & ?).
    exists [d1], M, sfx, cap. repeat split; auto.
Qed.

(** The hour arithmetic of the source is the 24-hour clock. *)
Lemma normalizeTime_of_match value H M cap p :
  match_timeRegex (trim value) = Some (H, M, cap) ->
  H <> [] -> M <> [] ->
  Forall (fun c => is_digit c = true) H ->
  Forall (fun c => is_digit c = true) M ->
  captured p cap ->
  normalizeTime value
  = if (23 <? hour24 (digits_value H) p) || (59 <? digits_value M) then None
    else Some (digits 2 (hour24 (digits_value H) p) ++ js ":"
               ++ digits 2 (digits_value M)).
Proof.
  intros Hm HneH HneM HH HM Hcap. unfold normalizeTime. rewrite Hm.
  destruct H as [|h1 H]; [done|]. destruct M as [|m1 M]; [done|].
  rewrite !parseInt_digits by done.
  pose proof (digits_value_nonneg _ HH) as Hh0.
  pose proof (digits_value_nonneg _ HM) as Hm0.
  set (h := digits_value (h1 :: H)) in *.
  set (m := digits_value (m1 :: M)) in *.
  clearbody h m.
  assert (Hhours :
    match toUpperCase <$> cap with
    | Some p0 =>
        if jsstring_eqb p0 (js "AM")
           && num_eqb (if jsstring_eqb p0 (js "PM") && negb (num_eqb (Num h) 12)
                       then num_add (Num h) 12 else Num h) 12
        then Num 0
        else if jsstring_eqb p0 (js "PM") && negb (num_eqb (Num h) 12)
             then num_add (Num h) 12 else Num h
    | None => Num h
    end = Num (hour24 h p)).
  { assert (Hup : toUpperCase <$> cap
                   = match p with
                     | Some AM => Some (js "AM")
                     | Some PM => Some (js "PM")
                     | None => None
                     end).
    { destruct p as [[]|], cap as [[|a [|b [|? ?]]]|]; try done;
        simpl in Hcap; destruct Hcap as [[-> | ->] [-> | ->]]; reflexivity. }
    rewrite Hup.
    destruct p as [[]|]; [| |done].
    - change (jsstring_eqb (js "AM") (js "AM")) with true.
      change (jsstring_eqb (js "AM") (js "PM")) with false.
      cbn [andb negb num_eqb num_add hour24]. by destruct (h =? 12).
    - change (jsstring_eqb (js "PM") (js "AM")) with false.
      change (jsstring_eqb (js "PM") (js "PM")) with true.
      cbn [andb negb num_eqb num_add hour24].
      destruct (h =? 12) eqn:E; [|done].
      apply Z.eqb_eq in E as ->. done. }
  rewrite Hhours. cbn [num_gtb].
  destruct (23 <? hour24 h p) eqn:H23; [done|].
  destruct (59 <? m) eqn:H59; [done|]. cbn [orb].
  assert (0 <= hour24 h p).
  { destruct p as [[]|]; simpl; [destruct (h =? 12)..|]; lia. }
  rewrite !padStart_two_digits by lia. done.
Qed.

(** A text of the pattern is normalized by the clock arithmetic. *)
Lemma normalizeTime_of_text value h m p :
  time_text (trim value) h m p ->
  normalizeTime value
  = if (23 <? hour24 h p) || (59 <? m) then None
    else Some (digits 2 (hour24 h p) ++ js ":" ++ digits 2 m).
Proof.
  intros (H & M & sfx & Hs & HlenH & HlenM & HH & HM & -> & -> & Hp).
  destruct (match_period_complete p sfx Hp) as (cap & Hcap & Hc).
  apply (normalizeTime_of_match value H M cap p); try done.
  - rewrite Hs. by apply match_timeRegex_complete.
  - by destruct H, HlenH.
  - by destruct M.
Qed.

(** C4.  The time normalizer accepts the trimmed texts that read [H:MM] or
    [HH:MM], optionally followed by white space and AM or PM in any case,
    and no other.  PM adds twelve hours unless the hour is 12, and AM makes
    hour 12 hour 0.  A resulting hour above 23 or a minute above 59 is
    rejected; otherwise the result is the hour and the minute, two digits
    each.  So ["2:30 PM"] gives ["14:30"], ["12:15 AM"] gives ["00:15"] and
    ["25:00"] is rejected. *)
Theorem normalizeTime_spec (value : list N) :
  (forall h m p, time_text (trim value) h m p ->
     normalizeTime value
     = if (23 <? hour24 h p) || (59 <? m) then None
       else Some (digits 2 (hour24 h p) ++ js ":" ++ digits 2 m))
  /\ ((forall h m p, ~ time_text (trim value) h m p) -> normalizeTime value = None)
  /\ normalizeTime (js "2:30 PM") = Some (js "14:30")
  /\ normalizeTime (js "12:15 AM") = Some (js "00:15")
  /\ normalizeTime (js "25:00") = None.
Proof.
  split; [apply normalizeTime_of_text|split; [|by repeat split]].
  - intros Hno. unfold normalizeTime.
    destruct (match_timeRegex (trim value)) as [r|] eqn:Hm; [|done].
    apply match_timeRegex_sound in Hm
      as (H & M & sfx & cap & -> & Hs & HlenH & HH & HlenM & HM & Hp).
    destruct (match_period_sound sfx cap Hp) as (p & Hpt & _).
    destruct (Hno (digits_value H) (digits_value M) p).
    by exists H, M, sfx.
Qed.

Lemma normalizeTime_spec_witness :
  time_text (trim (js " 9:05pm ")) 9 5 (Some PM)
  /\ normalizeTime (js " 9:05pm ") = Some (js "21:05").
Proof.
  assert (Ht : time_text (trim (js " 9:05pm ")) 9 5 (Some PM)).
  { exists (js "9"), (js "05"), (js "pm"). repeat split.
    - by left.
    - by repeat constructor.
    - by repeat constructor.
    - exists [], 112%N, 109%N. repeat split; [constructor | by right..]. }
  split; [exact Ht|].
  destruct (normalizeTime_spec (js " 9:05pm ")) as [Hspec _].
  by rewrite (Hspec 9 5 (Some PM) Ht).
Defined.

(** ** Dates *)

Ltac div_lia := unfold DayFromYear in *; Z.div_mod_to_equations; lia.

Lemma DaysInYear_range y : 365 <= DaysInYear y <= 366.
Proof. unfold DaysInYear. div_lia. Qed.

Lemma YearFromDay_spec d :
  DayFromYear (YearFromDay d) <= d < DayFromYear (YearFromDay d + 1).
Proof.
  unfold YearFromDay.
  set (y := 1970 + 400 * d / 146097).
  assert (Hy : 146097 * (y - 1970) <= 400 * d < 146097 * (y - 1970) + 146097).
  { subst y. Z.div_mod_to_equations. lia. }
  clearbody y.
  destruct (d <? DayFromYear y) eqn:H1.
  - apply Z.ltb_lt in H1. replace (y - 1 + 1) with y by lia.
    split; [|done]. div_lia.
  - apply Z.ltb_ge in H1.
    destruct (DayFromYear (y + 1) <=? d) eqn:H2.
    + apply Z.leb_le in H2. split; [done|].
      replace (y + 1 + 1) with (y + 2) by lia. div_lia.
    + apply Z.leb_gt in H2. done.
Qed.

Lemma InLeapYear_range y : InLeapYear y = 0 \/ InLeapYear y = 1.
Proof. unfold InLeapYear. pose proof (DaysInYear_range y). lia. Qed.

Lemma month_of_day_spec leap dy :
  leap = 0 \/ leap = 1 -> 0 <= dy < 365 + leap ->
  0 <= month_of_day leap dy <= 11
  /\ month_start leap (month_of_day leap dy) <= dy
     < month_start leap (month_of_day leap dy + 1).
Proof.
  intros Hleap Hdy. unfold month_of_day.
  repeat match goal with
  | |- context [?a <? ?b] =>
      let E := fresh "E" in
      destruct (a <? b) eqn:E;
      [apply Z.ltb_lt in E | apply Z.ltb_ge in E]; cbn [month_start] in E
  end;
  repeat match goal with
  | |- context [month_start _ (?k + 1)] =>
      let r := eval vm_compute in (k + 1) in change (k + 1) with r
  end;
  cbn [month_start]; lia.
Qed.

(** The calendar date of a time value: the year, the month counted from 1
    and the day of the month. *)
Lemma calendar_date t :
  let y := YearFromTime t in
  let m := MonthFromTime t + 1 in
  let d := DateFromTime t in
  1 <= m <= 12 /\ 1 <= d <= DaysInMonth y m /\ MakeDay y m d = Day t.
Proof.
  intros y m d. subst y m d.
  unfold DaysInMonth, MakeDay, DateFromTime, MonthFromTime, DayWithinYear,
    YearFromTime.
  pose proof (YearFromDay_spec (Day t)) as Hy.
  set (y := YearFromDay (Day t)) in *.
  pose proof (InLeapYear_range y) as Hleap.
  assert (Hdy : 0 <= Day t - DayFromYear y < 365 + InLeapYear y).
  { unfold InLeapYear, DaysInYear. lia. }
  pose proof (month_of_day_spec _ _ Hleap Hdy) as [Hm Hs].
  set (mo := month_of_day (InLeapYear y) (Day t - DayFromYear y)) in *.
  replace (mo + 1 - 1) with mo by lia. lia.
Qed.

Lemma YearFromTime_range t :
  Z.abs t <= maxTime -> -271821 <= YearFromTime t <= 275760.
Proof.
  intros Ht. unfold YearFromTime.
  pose proof (YearFromDay_spec (Day t)) as Hy.
  assert (Hd : -100000000 <= Day t <= 100000000).
  { unfold Day, msPerDay, maxTime in *. Z.div_mod_to_equations. lia. }
  revert Hy Hd. generalize (YearFromDay (Day t)), (Day t). intros y d Hy Hd.
  div_lia.
Qed.

(** *** Digits *)

Lemma digits_length w n : length (digits w n) = w.
Proof.
  revert n. induction w as [|w IH]; intros n; simpl; [done|].
  rewrite length_app, IH. simpl. lia.
Qed.

Lemma digits_is_digit w n : Forall (fun c => is_digit c = true) (digits w n).
Proof.
  revert n. induction w as [|w IH]; intros n; simpl; [constructor|].
  apply Forall_app. split; [apply IH|].
  constructor; [|constructor].
  apply is_digit_range.
  pose proof (Z.mod_pos_bound n 10). lia.
Qed.

Lemma digits_value_snoc ds c :
  digits_value (ds ++ [c]) = 10 * digits_value ds + digit_value c.
Proof. unfold digits_value. by rewrite fold_left_app. Qed.

Lemma digits_value_digits w n :
  0 <= n < 10 ^ Z.of_nat w -> digits_value (digits w n) = n.
Proof.
  revert n. induction w as [|w IH]; intros n Hn.
  - simpl in *. unfold digits_value. simpl. lia.
  - cbn [digits]. rewrite digits_value_snoc.
    rewrite Nat2Z.inj_succ, Z.pow_succ_r in Hn by lia.
    rewrite IH by (Z.div_mod_to_equations; lia).
    unfold digit_value.
    pose proof (Z.mod_pos_bound n 10).
    rewrite Z2N.id by lia.
    Z.div_mod_to_equations. lia.
Qed.

Lemma forallb_of_Forall {A} (f : A -> bool) l :
  Forall (fun x => f x = true) l -> forallb f l = true.
Proof. induction 1 as [|x l Hx _ IH]; simpl; [done | by rewrite Hx, IH]. Qed.

Lemma read_digits_digits w n rest :
  0 <= n < 10 ^ Z.of_nat w ->
  read_digits w (digits w n ++ rest) = Some (n, rest).
Proof.
  intros Hn. unfold read_digits.
  rewrite take_app_length' by (symmetry; apply digits_length).
  rewrite drop_app_length' by (symmetry; apply digits_length).
  rewrite digits_length, Nat.eqb_refl.
  rewrite (forallb_of_Forall _ _ (digits_is_digit w n)).
  by rewrite digits_value_digits.
Qed.

Lemma read_year_iso_year y rest :
  -999999 <= y <= 999999 -> read_year (iso_year y ++ rest) = Some (y, rest).
Proof.
  intros Hy. unfold iso_year.
  destruct ((0 <=? y) && (y <=? 9999)) eqn:Hsmall.
  - apply andb_true_iff in Hsmall as [H0 H1].
    apply Z.leb_le in H0, H1.
    pose proof (read_digits_digits 4 y rest) as Hr.
    pose proof (digits_is_digit 4 y) as Hd.
    pose proof (digits_length 4 y) as Hl.
    destruct (digits 4 y) as [|c ds]; [done|].
    inversion Hd as [|? ? Hc _]; subst. apply is_digit_range in Hc.
    cbn [app read_year].
    replace (c =? PLUS_SIGN)%N with false
      by (symmetry; apply N.eqb_neq; unfold PLUS_SIGN; lia).
    replace (c =? MINUS_SIGN)%N with false
      by (symmetry; apply N.eqb_neq; unfold MINUS_SIGN; lia).
    apply Hr. lia.
  - cbn [app read_year].
    destruct (y <? 0) eqn:Hneg.
    + apply Z.ltb_lt in Hneg.
      change (MINUS_SIGN =? PLUS_SIGN)%N with false.
      change (MINUS_SIGN =? MINUS_SIGN)%N with true. cbn iota.
      rewrite read_digits_digits by lia. cbn.
      destruct (Z.abs y =? 0) eqn:Hz; [apply Z.eqb_eq in Hz; lia|].
      f_equal. f_equal. lia.
    + apply Z.ltb_ge in Hneg.
      change (PLUS_SIGN =? PLUS_SIGN)%N with true. cbn iota.
      rewrite read_digits_digits by lia. f_equal. f_equal. lia.
Qed.

Lemma read_field_digits lo hi n rest :
  0 <= n < 100 -> lo <= n <= hi ->
  read_field lo hi (MINUS_SIGN :: digits 2 n ++ rest) = Some (n, rest).
Proof.
  intros Hn Hr. unfold read_field.
  change (MINUS_SIGN =? MINUS_SIGN)%N with true. cbn iota.
  rewrite read_digits_digits by lia. cbn.
  by rewrite (proj2 (Z.leb_le lo n)), (proj2 (Z.leb_le n hi)) by lia.
Qed.

(** *** The date normalizer *)

Lemma split_at sep p r :
  Forall (fun c => c <> sep) p -> split sep (p ++ sep :: r) = p :: split sep r.
Proof.
  induction 1 as [|c p Hc _ IH]; simpl.
  - unfold cu_eqb. by rewrite N.eqb_refl.
  - unfold cu_eqb in *. rewrite (proj2 (N.eqb_neq c sep)) by done.
    by rewrite IH.
Qed.

Lemma digits_no_T w n : Forall (fun c => c <> LETTER_T) (digits w n).
Proof.
  eapply Forall_impl; [apply digits_is_digit|].
  intros c Hc%is_digit_range. unfold LETTER_T. lia.
Qed.

Lemma iso_date_no_T t : Forall (fun c => c <> LETTER_T) (iso_date t).
Proof.
  assert (Hdash : Forall (fun c => c <> LETTER_T) (js "-")) by by repeat constructor.
  unfold iso_date.
  apply Forall_app; split; [|apply Forall_app; split; [done|];
    apply Forall_app; split; [apply digits_no_T|];
    apply Forall_app; split; [done | apply digits_no_T]].
  unfold iso_year. destruct (_ && _); [apply digits_no_T|].
  constructor; [by destruct (_ <? 0) | apply digits_no_T].
Qed.

(** The normalizer gives the calendar date of the parsed time value, in
    the ISO format: what stands before the T of [toISOString]. *)
Lemma normalizeDate_value `{Host} value :
  normalizeDate value = iso_date <$> new_Date value.
Proof.
  unfold normalizeDate. destruct (new_Date value) as [t|]; [|done].
  unfold toISOString. change (js "T" ++ ?r) with (LETTER_T :: r).
  by rewrite split_at by apply iso_date_no_T.
Qed.

Lemma iso_date_nonempty t : iso_date t <> [].
Proof.
  unfold iso_date. intros Hnil.
  apply (f_equal length) in Hnil. rewrite !length_app in Hnil.
  simpl in Hnil. lia.
Qed.

Lemma new_Date_range `{Host} value t :
  new_Date value = Some t -> Z.abs t <= maxTime.
Proof.
  unfold new_Date, TimeClip. destruct (Date_parse value) as [t'|]; [|done].
  simpl. destruct (Z.abs t' <=? maxTime) eqn:E; [|done].
  intros [= <-]. by apply Z.leb_le.
Qed.

Lemma iso_date_Day t1 t2 : Day t1 = Day t2 -> iso_date t1 = iso_date t2.
Proof.
  intros Hd.
  unfold iso_date, DateFromTime, MonthFromTime, DayWithinYear, YearFromTime.
  by rewrite Hd.
Qed.

Lemma Day_of_days d : Day (d * msPerDay) = d.
Proof. unfold Day. by apply Z.div_mul. Qed.

Lemma DateFromTime_range t : 1 <= DateFromTime t <= 31.
Proof.
  pose proof (calendar_date t) as (Hm & Hd & _).
  split; [lia|]. etrans; [apply Hd|]. unfold DaysInMonth.
  revert Hm. generalize (MonthFromTime t + 1). intros m Hm.
  assert (Hcases : m ∈ seqZ 1 12) by (apply elem_of_seqZ; lia).
  vm_compute seqZ in Hcases.
  destruct (InLeapYear_range (YearFromTime t)) as [E|E]; rewrite E;
    repeat (apply elem_of_cons in Hcases as [-> | Hcases];
            [by vm_compute|]);
    by apply elem_of_nil in Hcases.
Qed.

(** The date-only text of a date parses to the midnight of that date. *)
Lemma parse_date_only_iso_date t :
  Z.abs t <= maxTime -> parse_date_only (iso_date t) = Some (Day t * msPerDay).
Proof.
  intros Ht.
  pose proof (calendar_date t) as (Hm & Hd & Hday).
  pose proof (YearFromTime_range t Ht) as Hy.
  pose proof (DateFromTime_range t) as Hd31.
  unfold parse_date_only, iso_date.
  rewrite read_year_iso_year by lia. cbn [mbind option_bind].
  change (js "-" ++ ?r) with (MINUS_SIGN :: r).
  rewrite read_field_digits by lia. cbn [mbind option_bind].
  change (js "-" ++ ?r) with (MINUS_SIGN :: r).
  rewrite <- (app_nil_r (digits 2 (DateFromTime t))).
  rewrite read_field_digits by lia. cbn [mbind option_bind].
  by rewrite Hday.
Qed.

(** The normalized date is a fixed point of the normalizer, whatever the
    engine. *)
Lemma normalizeDate_iso_date `{Host} t :
  Z.abs t <= maxTime -> normalizeDate (iso_date t) = Some (iso_date t).
Proof.
  intros Ht. rewrite normalizeDate_value.
  unfold new_Date, Date_parse. rewrite parse_date_only_iso_date by done.
  unfold TimeClip. cbn [mbind option_bind].
  assert (Hclip : Z.abs (Day t * msPerDay) <= maxTime).
  { unfold Day, msPerDay, maxTime in *. Z.div_mod_to_equations. lia. }
  rewrite (proj2 (Z.leb_le _ _) Hclip). cbn [fmap option_fmap option_map].
  f_equal. apply iso_date_Day, Day_of_days.
Qed.

Lemma normalizeDate_idempotent `{Host} value d :
  normalizeDate value = Some d -> normalizeDate d = Some d.
Proof.
  rewrite normalizeDate_value.
  destruct (new_Date value) as [t|] eqn:Ht; [|done].
  intros [= <-]. apply normalizeDate_iso_date. by eapply new_Date_range.
Qed.

Lemma date_step_result `{Host} raw st rawDate :
  raw !! js "date" = Some (FString rawDate) ->
  date_step raw st
  = match new_Date rawDate with
    | Some t => set_field "date" (VString (iso_date t)) st
    | None => push "date must be a valid date" st
    end.
Proof.
  intros Hraw. unfold date_step. rewrite Hraw, normalizeDate_value.
  destruct (new_Date rawDate) as [t|]; [|done].
  cbn [fmap option_fmap option_map].
  pose proof (iso_date_nonempty t). by destruct (iso_date t).
Qed.

(** C9 as stated fails on a year beyond 9999: the date is valid, and what
    the normalizer gives has a sign and a year of six digits. *)
Lemma normalizeDate_expanded_year :
  @normalizeDate plain_host (js "+010000-01-01") = Some (js "+010000-01-01")
  /\ @normalizeDate plain_host (js "-000001-12-31") = Some (js "-000001-12-31").
Proof. split; reflexivity. Qed.

(** C9, amended.  The date normalizer gives nothing when the text is no
    date for the engine, and the validator then records "date must be a
    valid date"; otherwise it gives the calendar date of the parsed time
    value in UTC as [toISOString] writes it, without the time of day and
    the zone letter that follow the T: the year, the month and the day,
    where the year is four digits from 0 to 9999 and a sign and six digits
    beyond.  The text 2024-03-15 gives 2024-03-15 on every engine, and
    not-a-date is rejected by an engine that reads no date in it. *)
Theorem normalizeDate_spec `{Host} (rawDate : list N) :
  normalizeDate rawDate = iso_date <$> new_Date rawDate
  /\ (forall raw st,
        raw !! js "date" = Some (FString rawDate) ->
        date_step raw st
        = match new_Date rawDate with
          | Some t => set_field "date" (VString (iso_date t)) st
          | None => push "date must be a valid date" st
          end)
  /\ (forall t,
        toISOString t = iso_date t ++ js "T" ++ iso_time t ++ js "Z"
        /\ iso_date t
           = iso_year (YearFromTime t) ++ js "-"
             ++ digits 2 (MonthFromTime t + 1) ++ js "-"
             ++ digits 2 (DateFromTime t)
        /\ 1 <= MonthFromTime t + 1 <= 12
        /\ 1 <= DateFromTime t <= 31
        /\ MakeDay (YearFromTime t) (MonthFromTime t + 1) (DateFromTime t)
           = Day t)
  /\ (forall y,
        (0 <= y <= 9999 -> iso_year y = digits 4 y)
        /\ (9999 < y -> iso_year y = PLUS_SIGN :: digits 6 y)
        /\ (y < 0 -> iso_year y = MINUS_SIGN :: digits 6 (- y)))
  /\ normalizeDate (js "2024-03-15") = Some (js "2024-03-15")
  /\ (Date_parse_host (js "not-a-date") = None ->
      normalizeDate (js "not-a-date") = None).
Proof.
  split; [apply normalizeDate_value|].
  split; [intros raw st; apply date_step_result|].
  split.
  { intros t. pose proof (calendar_date t) as (Hm & _ & Hday).
    pose proof (DateFromTime_range t). done. }
  split.
  { intros y. unfold iso_year. repeat split; intros Hy.
    - by rewrite (proj2 (Z.leb_le 0 y)), (proj2 (Z.leb_le y 9999)) by lia.
    - rewrite (proj2 (Z.leb_gt y 9999)), andb_false_r by lia.
      rewrite (proj2 (Z.ltb_ge y 0)) by lia. f_equal. f_equal. lia.
    - rewrite (proj2 (Z.leb_gt 0 y)) by lia. cbn [andb].
      rewrite (proj2 (Z.ltb_lt y 0)) by lia. f_equal. f_equal. lia. }
  split; [reflexivity|].
  intros Hhost. rewrite normalizeDate_value.
  unfold new_Date, Date_parse.
  change (parse_date_only (js "not-a-date")) with (@None Z).
  by rewrite Hhost.
Qed.

Lemma normalizeDate_spec_witness :
  @Date_parse_host plain_host (js "not-a-date") = None
  /\ @normalizeDate plain_host (js "not-a-date") = None.
Proof.
  split; [reflexivity|].
  apply (@normalizeDate_spec plain_host (js "not-a-date")).
  reflexivity.
Defined.

(** ** Sanitizing what is sanitized *)

Lemma trimStart_id s : starts_clean s -> trimStart s = s.
Proof. destruct s as [|c s]; simpl; [done | by intros ->]. Qed.

Lemma trimStart_starts_clean s : starts_clean (trimStart s).
Proof.
  destruct (trimStart s) as [|c r] eqn:E; simpl; [done|].
  by eapply trimStart_head.
Qed.

(** A text is its own trimmed form exactly when it has no white space at
    either end. *)
Lemma trim_fixed_iff s : trim s = s <-> starts_clean s /\ starts_clean (rev s).
Proof.
  unfold trim, trimEnd. split.
  - intros Hs. split.
    + rewrite <- Hs.
      destruct (trimStart_suffix (rev (trimStart s))) as (ws & Hr & Hws).
      destruct ws as [|w ws].
      * simpl in Hr. rewrite <- Hr, rev_involutive.
        apply trimStart_starts_clean.
      * apply (f_equal length) in Hs.
        apply (f_equal length) in Hr.
        rewrite length_rev in Hs. rewrite length_app, length_rev in Hr.
        pose proof (trimStart_length s). simpl in Hr. lia.
    + rewrite <- Hs at 1. rewrite rev_involutive.
      apply trimStart_starts_clean.
  - intros [H1 H2]. rewrite (trimStart_id s H1), (trimStart_id _ H2).
    apply rev_involutive.
Qed.

(** Sanitizing a sanitized text trims it, and changes nothing else. *)
Lemma sanitizePlainText_twice value n :
  sanitizePlainText (sanitizePlainText value n) n
  = trim (sanitizePlainText value n).
Proof.
  set (o := sanitizePlainText value n).
  rewrite sanitizePlainText_eq. unfold slice0.
  rewrite strip_angle_clean
    by (apply trim_Forall; subst o; apply sanitizePlainText_clean).
  apply take_ge. etrans; [apply trim_length|].
  subst o. apply sanitizePlainText_length.
Qed.

Lemma digits_2_clean n : exists a b, digits 2 n = [a; b]
  /\ is_whitespace a = false /\ is_whitespace b = false.
Proof.
  pose proof (digits_is_digit 2 n) as Hd.
  cbn [digits app] in *. eexists _, _. split; [done|].
  inversion Hd as [|? ? Ha Hd']; subst. inversion Hd' as [|? ? Hb _]; subst.
  split; by apply digit_not_whitespace.
Qed.

(** The normalized time is a fixed point of the time normalizer. *)
Lemma normalizeTime_idempotent value o :
  normalizeTime value = Some o -> normalizeTime o = Some o.
Proof.
  intros Hv.
  assert (Hform : exists h m, 0 <= h <= 23 /\ 0 <= m <= 59
            /\ o = digits 2 h ++ js ":" ++ digits 2 m).
  { destruct (match_timeRegex (trim value)) as [[[H M] cap]|] eqn:Hm;
      [|by unfold normalizeTime in Hv; rewrite Hm in Hv].
    pose proof Hm as Hm'.
    apply match_timeRegex_sound in Hm'
      as (H' & M' & sfx & cap' & [= -> -> ->] & Hs & HlenH & HH & HlenM & HM & Hp).
    destruct (match_period_sound sfx cap' Hp) as (p & Hpt & Hc).
    rewrite (normalizeTime_of_match value H' M' cap' p) in Hv; try done;
      [|by destruct H', HlenH | by destruct M'].
    pose proof (digits_value_nonneg _ HH). pose proof (digits_value_nonneg _ HM).
    destruct (_ || _) eqn:E; [done|]. injection Hv as <-.
    apply orb_false_iff in E as [E1 E2]. apply Z.ltb_ge in E1, E2.
    eexists _, _. split; [|split; [|done]]; [|lia].
    split; [|done]. destruct p as [[]|]; simpl; [destruct (_ =? 12)..|]; lia. }
  destruct Hform as (h & m & Hh & Hm & ->).
  pose proof (normalizeTime_of_text (digits 2 h ++ js ":" ++ digits 2 m))
    as Hspec.
  assert (Htrim : trim (digits 2 h ++ js ":" ++ digits 2 m)
                  = digits 2 h ++ js ":" ++ digits 2 m).
  { destruct (digits_2_clean h) as (a & b & -> & Ha & _).
    destruct (digits_2_clean m) as (c & d & -> & _ & Hd).
    apply trim_fixed_iff. split; simpl; done. }
  rewrite (Hspec h m None).
  - simpl. rewrite (proj2 (Z.ltb_ge 23 h)), (proj2 (Z.ltb_ge 59 m)) by lia. done.
  - rewrite Htrim. exists (digits 2 h), (digits 2 m), [].
    rewrite app_nil_r.
    repeat split; try apply digits_is_digit.
    + by right.
    + by rewrite digits_value_digits by (simpl; lia).
    + by rewrite digits_value_digits by (simpl; lia).
Qed.

Lemma ensureSecureImageUrl_idempotent `{Host} url h :
  ensureSecureImageUrl url = Some h -> ensureSecureImageUrl h = Some h.
Proof.
  unfold ensureSecureImageUrl.
  destruct (URL_parse url) as [parsed|] eqn:Hu; [|done].
  destruct (jsstring_eqb _ _) eqn:Hp; [|done].
  intros [= <-]. by rewrite (URL_parse_href _ _ Hu), Hp.
Qed.

(** An allowed mode passes the mode check as it is. *)
Lemma mode_step_allowed `{Host} raw st m :
  In m ALLOWED_MODES ->
  raw !! js "mode" = Some (FString (js m)) ->
  mode_step raw st = set_field "mode" (VString (js m)) st.
Proof.
  intros Hin Hraw. unfold mode_step. rewrite Hraw.
  assert (Hm : toLowerCase (trim (js m)) = js m).
  { simpl in Hin. destruct Hin as [<-|[<-|[<-|[]]]];
      (change (trim (js _)) with (js "online")
       || change (trim (js _)) with (js "offline")
       || change (trim (js _)) with (js "hybrid"));
      apply toLowerCase_lower; repeat constructor; done. }
  rewrite Hm.
  simpl in Hin. by destruct Hin as [<-|[<-|[<-|[]]]].
Qed.

(** The mode the validator stores is an allowed one. *)
Lemma mode_step_stored `{Host} raw st v :
  mode_step raw st = set_field "mode" (VString v) st ->
  exists m, In m ALLOWED_MODES /\ v = js m.
Proof.
  unfold mode_step.
  set (rawMode := match raw !! js "mode" with Some (FString m) => _ | _ => _ end).
  destruct (existsb _ ALLOWED_MODES) eqn:E; cbn [negb].
  - intros Heq. apply existsb_exists in E as (m & Hin & Hm).
    exists m. split; [done|].
    assert (Hv : v = rawMode).
    { unfold set_field in Heq. injection Heq as Heq.
      apply (f_equal (lookup "mode")) in Heq.
      rewrite !lookup_insert_eq in Heq. congruence. }
    rewrite Hv. symmetry. by apply jsstring_eqb_eq.
  - unfold push, set_field. intros [= Herr _].
    apply (f_equal length) in Herr. rewrite length_app in Herr. simpl in Herr. lia.
Qed.

Lemma parseStringArray_clean text l :
  parseStringArray text = Some l ->
  Forall (fun s => Forall (fun c => is_angle c = false) s) l.
Proof.
  unfold parseStringArray.
  destruct (match JSON_parse text with Some v => v | None => _ end); try done.
  set (texts := List.filter _ _).
  destruct (map strip_angle texts) eqn:E; [done|]. intros [= <-]. rewrite <- E.
  clear. induction texts as [|s texts IH]; simpl; constructor;
    [apply strip_angle_Forall | done].
Qed.

Lemma clean_texts_of_clean texts :
  Forall (fun s => Forall (fun c => is_angle c = false) s) texts ->
  clean_texts texts = List.filter (fun s => negb (is_empty s)) texts.
Proof.
  unfold clean_texts. induction 1 as [|s texts Hs _ IH]; [done|].
  cbn [List.filter]. destruct (negb (is_empty s)); [|done].
  cbn [map]. by rewrite IH, strip_angle_clean.
Qed.

(** Parsing the JSON text of a parsed array again trims its elements and
    drops the empty ones. *)
Lemma parseStringArray_twice text l text' :
  parseStringArray text = Some l ->
  JSON_parse text' = Some (string_array l) ->
  parseStringArray text'
  = unless_empty (List.filter (fun s => negb (is_empty s)) (map trim l)).
Proof.
  intros Hl Hp. rewrite (parseStringArray_of_array _ _ Hp).
  f_equal.
  replace (map item_text (VString <$> l)) with (map trim l)
    by (unfold fmap, list_fmap; fold (map VString l); by rewrite map_map).
  apply clean_texts_of_clean.
  apply parseStringArray_clean in Hl. clear Hp.
  induction Hl as [|s l Hs _ IH]; simpl; [constructor|].
  constructor; [by apply trim_Forall | done].
Qed.

Lemma filter_length_le {A} (f : A -> bool) l :
  (length (List.filter f l) <= length l)%nat.
Proof. induction l as [|x l IH]; simpl; [lia|]. destruct (f x); simpl; lia. Qed.

(** Trimming the elements and dropping the empty ones leaves a list as it
    is exactly when every element is trimmed and not empty. *)
Lemma retrim_fixed_iff (l : list (list N)) :
  List.filter (fun s => negb (is_empty s)) (map trim l) = l
  <-> Forall (fun e => trim e = e /\ e <> []) l.
Proof.
  split.
  - induction l as [|e l IH]; [constructor|]. cbn [map List.filter].
    destruct (trim e) as [|c t] eqn:He; cbn [is_empty negb].
    + intros Hl. apply (f_equal length) in Hl.
      pose proof (filter_length_le (fun s => negb (is_empty s)) (map trim l)).
      rewrite length_map in *. simpl in Hl. lia.
    + intros [= <- Hl]. constructor; [done | by apply IH].
  - induction 1 as [|e l [He Hne] _ IH]; [done|]. cbn [map List.filter].
    rewrite He. destruct e; [done|]. cbn [is_empty negb]. by rewrite IH.
Qed.

(** C8 as stated fails on a text where a bracket follows a space: the
    sanitized title ends in a space, and sanitizing it again removes the
    space.  A title of brackets around a space becomes a single space,
    which is rejected when it is validated again. *)
Lemma sanitized_text_not_fixed :
  sanitizePlainText (js "a <") 100 = js "a "
  /\ sanitizePlainText (js "a ") 100 = js "a"
  /\ text_step {[ js "title" := FString (js "< >") ]} ([], ∅) f_title
     = ([], {[ "title" := VString (js " ") ]})
  /\ text_step {[ js "title" := FString (js " ") ]} ([], ∅) f_title
     = (["title cannot be empty"], ∅).
Proof. repeat split. Qed.

(** C8, amended.  Validating a sanitized value again gives the same value
    for the time, the date, the mode and the image.  For a text field it
    gives the trimmed form of the sanitized value, which is the same value
    exactly when that has no white space at either end; the sanitizer
    strips brackets and cuts after it trims, so it can leave white space
    there.  For an array submitted again as the JSON text of its elements
    it gives the elements trimmed, without the empty ones, which is the
    same array exactly when every element is trimmed and not empty. *)
Theorem sanitized_values_fixed `{Host} :
  (forall value n,
     let o := sanitizePlainText value n in
     sanitizePlainText o n = trim o
     /\ (sanitizePlainText o n = o <-> starts_clean o /\ starts_clean (rev o)))
  /\ (forall value o, normalizeTime value = Some o -> normalizeTime o = Some o)
  /\ (forall value d, normalizeDate value = Some d -> normalizeDate d = Some d)
  /\ (forall raw st v,
        mode_step raw st = set_field "mode" (VString v) st ->
        forall raw' st',
          raw' !! js "mode" = Some (FString v) ->
          mode_step raw' st' = set_field "mode" (VString v) st')
  /\ (forall url h,
        ensureSecureImageUrl url = Some h -> ensureSecureImageUrl h = Some h)
  /\ (forall text l text',
        parseStringArray text = Some l ->
        JSON_parse text' = Some (string_array l) ->
        parseStringArray text'
        = unless_empty (List.filter (fun s => negb (is_empty s)) (map trim l))
        /\ (parseStringArray text' = Some l
            <-> Forall (fun e => trim e = e /\ e <> []) l)).
Proof.
  split.
  { intros value n o. split; [apply sanitizePlainText_twice|].
    subst o. rewrite sanitizePlainText_twice. apply trim_fixed_iff. }
  split; [apply normalizeTime_idempotent|].
  split; [apply normalizeDate_idempotent|].
  split.
  { intros raw st v Hv raw' st' Hraw'.
    apply mode_step_stored in Hv as (m & Hin & ->).
    by apply mode_step_allowed. }
  split; [apply ensureSecureImageUrl_idempotent|].
  intros text l text' Hl Hp.
  pose proof (parseStringArray_twice _ _ _ Hl Hp) as Htwice.
  split; [done|]. rewrite Htwice, <- retrim_fixed_iff.
  apply parseStringArray_nonempty in Hl.
  unfold unless_empty. split.
  - destruct (List.filter _ _); [done | by intros [= <-]].
  - intros ->. by destruct l.
Qed.

Lemma sanitized_values_fixed_witness :
  normalizeTime (js "2:30 PM") = Some (js "14:30")
  /\ normalizeTime (js "14:30") = Some (js "14:30").
Proof.
  split; [reflexivity|].
  destruct (@sanitized_values_fixed plain_host) as (_ & Htime & _).
  apply (Htime (js "2:30 PM")). reflexivity.
Defined.

(** * Further properties *)

(** ** The record the validator returns *)

Lemma not_angle c : is_angle c = false -> c <> LT_SIGN /\ c <> GT_SIGN.
Proof.
  unfold is_angle. intros Hc. apply orb_false_iff in Hc as [H1 H2].
  by apply N.eqb_neq in H1, H2.
Qed.

Lemma text_step_good raw f :
  (exists e, forall st, text_step raw st f = push e st)
  \/ (exists v,
        (text_ok f v
         /\ exists rawValue,
              raw !! js (field_name f) = Some (FString rawValue)
              /\ v = sanitizePlainText rawValue (maxLength f))
        /\ forall st, text_step raw st f = set_field (field_name f) (VString v) st).
Proof.
  unfold text_step.
  destruct (raw !! js (field_name f)) as [[rawValue|file]|]; eauto.
  destruct (sanitizePlainText rawValue (maxLength f)) as [|c v] eqn:Hv;
    cbn [is_empty]; eauto.
  right. exists (c :: v). split; [|done]. split; [|by exists rawValue].
  rewrite <- Hv. repeat split.
  - by rewrite Hv.
  - eapply Forall_impl; [apply sanitizePlainText_clean|]. apply not_angle.
  - apply sanitizePlainText_length.
Qed.

Lemma date_step_good `{Host} raw :
  (exists e, forall st, date_step raw st = push e st)
  \/ (exists v,
        (exists rawDate t,
           raw !! js "date" = Some (FString rawDate)
           /\ new_Date rawDate = Some t
           /\ Z.abs t <= maxTime
           /\ v = iso_date t)
        /\ forall st, date_step raw st = set_field "date" (VString v) st).
Proof.
  unfold date_step.
  destruct (raw !! js "date") as [[rawDate|file]|]; eauto.
  rewrite normalizeDate_value.
  destruct (new_Date rawDate) as [t|] eqn:Ht; cbn [fmap option_fmap option_map]; eauto.
  destruct (iso_date t) as [|c d] eqn:Hd; eauto.
  right. exists (c :: d). split; [|done].
  exists rawDate, t. repeat split; try done. by eapply new_Date_range.
Qed.

(** What [normalizeTime] returns is a time [HH:MM] of the 24-hour clock. *)
Lemma normalizeTime_form value o :
  normalizeTime value = Some o ->
  exists h m, 0 <= h <= 23 /\ 0 <= m <= 59
              /\ o = digits 2 h ++ js ":" ++ digits 2 m.
Proof.
  intros Hv.
  destruct (match_timeRegex (trim value)) as [[[H M] cap]|] eqn:Hm;
    [|by unfold normalizeTime in Hv; rewrite Hm in Hv].
  pose proof Hm as Hm'.
  apply match_timeRegex_sound in Hm'
    as (H' & M' & sfx & cap' & [= -> -> ->] & Hs & HlenH & HH & HlenM & HM & Hp).
  destruct (match_period_sound sfx cap' Hp) as (p & Hpt & Hc).
  rewrite (normalizeTime_of_match value H' M' cap' p) in Hv; try done;
    [|by destruct H', HlenH | by destruct M'].
  pose proof (digits_value_nonneg _ HH). pose proof (digits_value_nonneg _ HM).
  destruct (_ || _) eqn:E; [done|]. injection Hv as <-.
  apply orb_false_iff in E as [E1 E2]. apply Z.ltb_ge in E1, E2.
  eexists _, _. split; [|split; [|done]]; [|lia].
  split; [|done]. destruct p as [[]|]; simpl; [destruct (_ =? 12)..|]; lia.
Qed.

Lemma time_step_good raw :
  (exists e, forall st, time_step raw st = push e st)
  \/ (exists v,
        (exists rawTime h m,
           raw !! js "time" = Some (FString rawTime)
           /\ normalizeTime rawTime = Some v
           /\ 0 <= h <= 23 /\ 0 <= m <= 59
           /\ v = digits 2 h ++ js ":" ++ digits 2 m)
        /\ forall st, time_step raw st = set_field "time" (VString v) st).
Proof.
  unfold time_step.
  destruct (raw !! js "time") as [[rawTime|file]|]; eauto.
  destruct (normalizeTime rawTime) as [[|c d]|] eqn:Ht; eauto.
  right. exists (c :: d). split; [|done].
  destruct (normalizeTime_form _ _ Ht) as (h & m & Hh & Hm & Hv).
  by exists rawTime, h, m.
Qed.

Lemma mode_step_good `{Host} raw :
  (exists e, forall st, mode_step raw st = push e st)
  \/ (exists v,
        (exists rawMode m,
           raw !! js "mode" = Some (FString rawMode)
           /\ In m ALLOWED_MODES
           /\ toLowerCase (trim rawMode) = js m
           /\ v = js m)
        /\ forall st, mode_step raw st = set_field "mode" (VString v) st).
Proof.
  unfold mode_step.
  destruct (existsb _ ALLOWED_MODES) eqn:Hm; cbn [negb]; eauto.
  right. eexists. split; [|done].
  apply existsb_exists in Hm as (m & Hin & Heq).
  apply jsstring_eqb_eq in Heq.
  destruct (raw !! js "mode") as [[rawMode|file]|].
  - by exists rawMode, m.
  - exfalso. simpl in Hin. by destruct Hin as [<-|[<-|[<-|[]]]].
  - exfalso. simpl in Hin. by destruct Hin as [<-|[<-|[<-|[]]]].
Qed.

Lemma array_step_good field raw :
  (exists e, forall st, array_step field raw st = push e st)
  \/ (exists l,
        (array_ok l
         /\ exists text, raw !! js field = Some (FString text)
                         /\ parseStringArray text = Some l)
        /\ forall st, array_step field raw st = set_field field (string_array l) st).
Proof.
  destruct (raw !! js field) as [[[|c s]|file]|] eqn:Hraw;
    try (left; eexists; intros st; rewrite array_step_result, Hraw; done).
  destruct (parseStringArray (c :: s)) as [l|] eqn:Hp;
    [|left; eexists; intros st; by rewrite array_step_result, Hraw, Hp].
  right. exists l. split; [|intros st; by rewrite array_step_result, Hraw, Hp].
  split; [|by exists (c :: s)]. split; [by eapply parseStringArray_nonempty|].
  eapply Forall_impl; [by eapply parseStringArray_clean|].
  intros t Ht. eapply Forall_impl; [exact Ht|]. apply not_angle.
Qed.

Lemma image_step_good `{Host} raw :
  (exists e, forall st, image_step raw st = push e st)
  \/ (exists v,
        (exists rawImage u,
           raw !! js "image" = Some (FString rawImage)
           /\ URL_parse rawImage = Some u
           /\ protocol u = js "https:"
           /\ v = href u
           /\ href u <> [])
        /\ forall st, image_step raw st = set_field "image" (VString v) st).
Proof.
  unfold image_step.
  destruct (ensureSecureImageUrl _) as [[|c d]|] eqn:Hi; eauto.
  right. exists (c :: d). split; [|done].
  unfold ensureSecureImageUrl in Hi.
  destruct (URL_parse _) as [parsed|] eqn:Hu; [|done].
  destruct (jsstring_eqb _ _) eqn:Hp; [|done].
  injection Hi as Hi. apply jsstring_eqb_eq in Hp.
  destruct (raw !! js "image") as [[rawImage|file]|]; cbn [string_or_empty] in Hu;
    try (by rewrite URL_parse_empty in Hu).
  exists rawImage, parsed. rewrite Hi. done.
Qed.

(** The state after the last check: an error, or the object of a record
    that is as [record_ok] words it. *)
Lemma validate_record_ok `{Host} raw :
  let st := image_step raw (array_step "tags" raw (array_step "agenda" raw
    (mode_step raw (time_step raw (date_step raw
      (foldl (text_step raw) ([], ∅) TEXT_FIELD_LIMITS)))))) in
  (exists e, st = ([], to_object e) /\ record_ok raw e) \/ st.1 <> [].
Proof.
  cbv zeta.
  destruct (image_step_good raw) as [[e ->]|(image & Himage & ->)]; [error_stays|].
  destruct (array_step_good "tags" raw) as [[e ->]|(tags & Htags & ->)];
    [error_stays|].
  destruct (array_step_good "agenda" raw) as [[e ->]|(agenda & Hagenda & ->)];
    [error_stays|].
  destruct (mode_step_good raw) as [[e ->]|(mode & Hmode & ->)]; [error_stays|].
  destruct (time_step_good raw) as [[e ->]|(time & Htime & ->)]; [error_stays|].
  destruct (date_step_good raw) as [[e ->]|(date & Hdate & ->)]; [error_stays|].
  simpl foldl.
  destruct (text_step_good raw f_organizer) as [[e ->]|(organizer & Horganizer & ->)];
    [error_stays|].
  destruct (text_step_good raw f_audience) as [[e ->]|(audience & Haudience & ->)];
    [error_stays|].
  destruct (text_step_good raw f_location) as [[e ->]|(location & Hlocation & ->)];
    [error_stays|].
  destruct (text_step_good raw f_venue) as [[e ->]|(venue & Hvenue & ->)];
    [error_stays|].
  destruct (text_step_good raw f_overview) as [[e ->]|(overview & Hoverview & ->)];
    [error_stays|].
  destruct (text_step_good raw f_description) as [[e ->]|(description & Hdescription & ->)];
    [error_stays|].
  destruct (text_step_good raw f_title) as [[e ->]|(title & Htitle & ->)];
    [error_stays|].
  left.
  exists {| title := title; description := description;
            overview := overview; venue := venue; location := location;
            date := date; time := time; mode := mode;
            audience := audience; agenda := agenda;
            organizer := organizer; tags := tags; image := image |}.
  split; [done|]. unfold record_ok.
  split; [by intros []|]. done.
Qed.

Lemma validate_returns `{Host} raw record :
  sanitizedEvent (validateAndSanitizeEvent raw) = Some record ->
  errors (validateAndSanitizeEvent raw) = []
  /\ exists e, record = to_object e /\ record_ok raw e.
Proof.
  pose proof (validate_record_ok raw) as Hs.
  unfold validateAndSanitizeEvent. cbv zeta in *. cbn [sanitizedEvent errors].
  set (st := image_step raw _) in *.
  destruct Hs as [(e & Hst & Hok)|Herr].
  - rewrite Hst. cbn. intros [= <-]. eauto.
  - by destruct (st.1).
Qed.

Lemma validate_accepts `{Host} raw :
  errors (validateAndSanitizeEvent raw) = [] ->
  exists record, sanitizedEvent (validateAndSanitizeEvent raw) = Some record.
Proof.
  unfold validateAndSanitizeEvent. cbn [errors sanitizedEvent].
  intros ->. eauto.
Qed.

(** X1.  In every record the validator returns, each of the seven text
    fields is the sanitized form of the string submitted under its name:
    it is not empty, holds no angle bracket, and is no longer than the
    maximum of the field. *)
Theorem validated_text_fields `{Host} (raw : gmap (list N) FormDataEntryValue)
    (record : gmap string value) :
  sanitizedEvent (validateAndSanitizeEvent raw) = Some record ->
  forall f : text_field,
    exists rawValue v,
      raw !! js (field_name f) = Some (FString rawValue)
      /\ v = sanitizePlainText rawValue (maxLength f)
      /\ record !! field_name f = Some (VString v)
      /\ v <> []
      /\ Forall (fun c => c <> LT_SIGN /\ c <> GT_SIGN) v
      /\ (length v <= maxLength f)%nat.
Proof.
  intros Hr f.
  destruct (validate_returns raw record Hr) as (_ & e & -> & Hok).
  destruct Hok as (Htext & _).
  destruct (Htext f) as ((Hne & Hclean & Hlen) & rawValue & Hraw & Hv).
  exists rawValue, (text_value f e).
  repeat split; try done. by destruct f.
Qed.

Lemma validated_text_fields_witness :
  let raw := sample_raw sample_tags sample_agenda in
  exists record,
    sanitizedEvent (@validateAndSanitizeEvent plain_host raw) = Some record
    /\ exists rawValue v,
         raw !! js "title" = Some (FString rawValue)
         /\ v = sanitizePlainText rawValue 100
         /\ record !! "title" = Some (VString v)
         /\ v <> []
         /\ Forall (fun c => c <> LT_SIGN /\ c <> GT_SIGN) v
         /\ (length v <= 100)%nat.
Proof.
  destruct (@validate_accepts plain_host (sample_raw sample_tags sample_agenda))
    as [record Hr]; [vm_compute; reflexivity|].
  exists record. split; [exact Hr|].
  exact (@validated_text_fields plain_host _ record Hr f_title).
Defined.

(** X2.  In every record the validator returns: the date is the calendar
    date of the time value the submitted string parses to, a value a Date
    can hold; the time is what [normalizeTime] makes of the submitted
    string, and reads [HH:MM] with the hour at most 23 and the minute at
    most 59; the mode is one of the three allowed words, and is the
    submitted string trimmed and in lower case; the image is the
    serialization of the URL the submitted string parses to, whose protocol
    is https. *)
Theorem validated_formats `{Host} (raw : gmap (list N) FormDataEntryValue)
    (record : gmap string value) :
  sanitizedEvent (validateAndSanitizeEvent raw) = Some record ->
  (exists rawDate t,
     raw !! js "date" = Some (FString rawDate)
     /\ new_Date rawDate = Some t
     /\ Z.abs t <= maxTime
     /\ record !! "date" = Some (VString (iso_date t)))
  /\ (exists rawTime h m,
        raw !! js "time" = Some (FString rawTime)
        /\ normalizeTime rawTime = Some (digits 2 h ++ js ":" ++ digits 2 m)
        /\ 0 <= h <= 23 /\ 0 <= m <= 59
        /\ record !! "time" = Some (VString (digits 2 h ++ js ":" ++ digits 2 m)))
  /\ (exists rawMode m,
        raw !! js "mode" = Some (FString rawMode)
        /\ In m ALLOWED_MODES
        /\ toLowerCase (trim rawMode) = js m
        /\ record !! "mode" = Some (VString (js m)))
  /\ (exists rawImage u,
        raw !! js "image" = Some (FString rawImage)
        /\ URL_parse rawImage = Some u
        /\ protocol u = js "https:"
        /\ href u <> []
        /\ record !! "image" = Some (VString (href u))).
Proof.
  intros Hr.
  destruct (validate_returns raw record Hr) as (_ & e & -> & Hok).
  destruct Hok as (_ & Hdate & Htime & Hmode & _ & _ & Himage).
  destruct Hdate as (rawDate & t & Hraw & Ht & Hrange & Hd).
  destruct Htime as (rawTime & h & m & Hrawt & Hn & Hh & Hm & Hv).
  destruct Hmode as (rawMode & md & Hrawm & Hin & Hlow & Hmd).
  destruct Himage as (rawImage & u & Hrawi & Hu & Hp & Hi & Hne).
  repeat split.
  - exists rawDate, t. repeat split; try done.
    transitivity (Some (VString (date e))); [done | by rewrite Hd].
  - exists rawTime, h, m. rewrite <- Hv. repeat split; try done; lia.
  - exists rawMode, md. repeat split; try done.
    transitivity (Some (VString (mode e))); [done | by rewrite Hmd].
  - exists rawImage, u. repeat split; try done.
    transitivity (Some (VString (image e))); [done | by rewrite Hi].
Qed.

Lemma validated_formats_witness :
  let raw := sample_raw sample_tags sample_agenda in
  exists record,
    sanitizedEvent (@validateAndSanitizeEvent plain_host raw) = Some record
    /\ exists rawTime h m,
         raw !! js "time" = Some (FString rawTime)
         /\ normalizeTime rawTime = Some (digits 2 h ++ js ":" ++ digits 2 m)
         /\ 0 <= h <= 23 /\ 0 <= m <= 59
         /\ record !! "time" = Some (VString (digits 2 h ++ js ":" ++ digits 2 m)).
Proof.
  destruct (@validate_accepts plain_host (sample_raw sample_tags sample_agenda))
    as [record Hr]; [vm_compute; reflexivity|].
  exists record. split; [exact Hr|].
  exact (proj1 (proj2 (@validated_formats plain_host _ record Hr))).
Defined.

(** X3.  In every record the validator returns, the agenda and the tags
    are what [parseStringArray] makes of the strings submitted under those
    names: lists of at least one string each, with no angle bracket in any
    of them. *)
Theorem validated_arrays `{Host} (raw : gmap (list N) FormDataEntryValue)
    (record : gmap string value) (field : string) :
  sanitizedEvent (validateAndSanitizeEvent raw) = Some record ->
  field = "agenda" \/ field = "tags" ->
  exists text l,
    raw !! js field = Some (FString text)
    /\ parseStringArray text = Some l
    /\ record !! field = Some (VArray (VString <$> l))
    /\ l <> []
    /\ Forall (fun s => Forall (fun c => c <> LT_SIGN /\ c <> GT_SIGN) s) l.
Proof.
  intros Hr Hfield.
  destruct (validate_returns raw record Hr) as (_ & e & -> & Hok).
  destruct Hok as (_ & _ & _ & _ & Hagenda & Htags & _).
  destruct Hfield as [-> | ->].
  - destruct Hagenda as ((Hne & Hclean) & text & Hraw & Hp).
    by exists text, (agenda e).
  - destruct Htags as ((Hne & Hclean) & text & Hraw & Hp).
    by exists text, (tags e).
Qed.

Lemma validated_arrays_witness :
  let raw := sample_raw sample_tags sample_agenda in
  exists record,
    sanitizedEvent (@validateAndSanitizeEvent plain_host raw) = Some record
    /\ exists text l,
         raw !! js "tags" = Some (FString text)
         /\ parseStringArray text = Some l
         /\ record !! "tags" = Some (VArray (VString <$> l))
         /\ l <> []
         /\ Forall (fun s => Forall (fun c => c <> LT_SIGN /\ c <> GT_SIGN) s) l.
Proof.
  destruct (@validate_accepts plain_host (sample_raw sample_tags sample_agenda))
    as [record Hr]; [vm_compute; reflexivity|].
  exists record. split; [exact Hr|].
  exact (@validated_arrays plain_host _ record "tags" Hr (or_intror eq_refl)).
Defined.

(** ** The order of the errors *)

Lemma one_of_sublist messages pushed :
  one_of messages pushed -> sublist pushed messages.
Proof.
  intros [->|(e & Hin & ->)]; [apply sublist_nil_l|].
  induction messages as [|m messages IH]; [done|].
  destruct Hin as [->|Hin].
  - apply sublist_skip, sublist_nil_l.
  - by apply sublist_cons, IH.
Qed.

Lemma picks_sublist picks groups :
  Forall2 (fun p g => one_of g p) picks groups ->
  sublist (concat picks) (concat groups).
Proof.
  induction 1 as [|p g picks groups Hp _ IH]; [done|].
  simpl. apply sublist_app; [by apply one_of_sublist | done].
Qed.

Lemma picks_length picks groups :
  Forall2 (fun p g => one_of g p) picks groups ->
  (length (concat picks) <= length groups)%nat.
Proof.
  induction 1 as [|p g picks groups Hp _ IH]; [done|].
  simpl. rewrite length_app.
  destruct Hp as [->|(e & _ & ->)]; simpl; lia.
Qed.

Ltac pushed_one :=
  first [ by left
        | right; eexists; split; [|reflexivity]; simpl; tauto ].

(** X4.  The error list holds at most one message for each of the
    thirteen fields, each one of the messages of its field, in the order
    of the checks in the source.  So no message occurs twice, and there
    are at most thirteen. *)
Theorem errors_one_per_field `{Host} (raw : gmap (list N) FormDataEntryValue) :
  let errs := errors (validateAndSanitizeEvent raw) in
  (exists picks,
     errs = concat picks
     /\ Forall2 (fun pushed check => one_of check.2 pushed) picks FIELD_ERRORS)
  /\ sublist errs ALL_ERRORS
  /\ NoDup errs
  /\ (length errs <= 13)%nat.
Proof.
  cbv zeta.
  assert (Hpicks : exists picks,
     errors (validateAndSanitizeEvent raw) = concat picks
     /\ Forall2 (fun p g => one_of g p) picks (snd <$> FIELD_ERRORS)).
  { rewrite errors_decompose. eexists [_; _; _; _; _; _; _; _; _; _; _; _; _].
    split; [cbn [concat]; by rewrite app_nil_r|].
    cbn [fmap list_fmap FIELD_ERRORS snd].
    repeat match goal with
           | |- Forall2 _ (_ :: _) (_ :: _) => constructor
           | |- Forall2 _ [] [] => constructor
           end.
    1-7: unfold text_step;
         match goal with
         | |- context [@lookup _ _ _ _ ?k ?m] =>
             destruct (@lookup _ _ _ _ k m) as [[?|?]|]
         end; try pushed_one; destruct (is_empty _); pushed_one.
    - unfold date_step. destruct (raw !! js "date") as [[?|?]|]; try pushed_one.
      destruct (normalizeDate _) as [[|??]|]; pushed_one.
    - unfold time_step. destruct (raw !! js "time") as [[?|?]|]; try pushed_one.
      destruct (normalizeTime _) as [[|??]|]; pushed_one.
    - unfold mode_step. destruct (negb _); pushed_one.
    - unfold array_step. destruct (if is_empty _ then _ else _); pushed_one.
    - unfold array_step. destruct (if is_empty _ then _ else _); pushed_one.
    - unfold image_step. destruct (ensureSecureImageUrl _) as [[|??]|]; pushed_one. }
  destruct Hpicks as (picks & Herrs & Hpicks).
  assert (Hsub : sublist (errors (validateAndSanitizeEvent raw)) ALL_ERRORS).
  { rewrite Herrs. by apply (picks_sublist _ _ Hpicks). }
  repeat split.
  - exists picks. split; [done|]. by apply Forall2_fmap_r in Hpicks.
  - done.
  - eapply sublist_NoDup; [|exact Hsub].
    apply (bool_decide_unpack _). vm_compute. reflexivity.
  - rewrite Herrs. apply (picks_length _ _ Hpicks).
Qed.

(** ** What the validator reads *)

(** X5.  The validator reads the submission under the thirteen field names
    and nowhere else: two submissions that agree on those names get the
    same result, so a key of any other name changes nothing and never
    reaches the record. *)
Theorem validate_reads_named_fields `{Host}
    (raw raw' : gmap (list N) FormDataEntryValue) :
  (forall k, In k FIELD_NAMES -> raw !! js k = raw' !! js k) ->
  validateAndSanitizeEvent raw = validateAndSanitizeEvent raw'.
Proof.
  intros Hsame.
  assert (Htext : forall f st, text_step raw st f = text_step raw' st f).
  { intros f st. unfold text_step. rewrite (Hsame (field_name f)); [done|].
    destruct f; simpl; tauto. }
  assert (Hdate : forall st, date_step raw st = date_step raw' st).
  { intros st. unfold date_step. rewrite (Hsame "date"); [done|simpl; tauto]. }
  assert (Htime : forall st, time_step raw st = time_step raw' st).
  { intros st. unfold time_step. rewrite (Hsame "time"); [done|simpl; tauto]. }
  assert (Hmode : forall st, mode_step raw st = mode_step raw' st).
  { intros st. unfold mode_step. rewrite (Hsame "mode"); [done|simpl; tauto]. }
  assert (Hagenda : forall st, array_step "agenda" raw st = array_step "agenda" raw' st).
  { intros st. unfold array_step. rewrite (Hsame "agenda"); [done|simpl; tauto]. }
  assert (Htags : forall st, array_step "tags" raw st = array_step "tags" raw' st).
  { intros st. unfold array_step. rewrite (Hsame "tags"); [done|simpl; tauto]. }
  assert (Himage : forall st, image_step raw st = image_step raw' st).
  { intros st. unfold image_step. rewrite (Hsame "image"); [done|simpl; tauto]. }
  unfold validateAndSanitizeEvent. cbn [foldl TEXT_FIELD_LIMITS].
  by rewrite !Htext, Hdate, Htime, Hmode, Hagenda, Htags, Himage.
Qed.

Lemma validate_reads_named_fields_witness :
  let raw := sample_raw sample_tags sample_agenda in
  let raw' := <[js "role" := FString (js "admin")]> raw in
  raw' !! js "role" = Some (FString (js "admin"))
  /\ raw !! js "role" = None
  /\ @validateAndSanitizeEvent plain_host raw'
     = @validateAndSanitizeEvent plain_host raw.
Proof.
  split; [vm_compute; reflexivity|]. split; [vm_compute; reflexivity|].
  apply (@validate_reads_named_fields plain_host).
  intros k Hin. apply lookup_insert_ne.
  simpl in Hin.
  repeat (destruct Hin as [<-|Hin]; [discriminate|]). destruct Hin.
Defined.

(** ** When a submission is accepted *)

Lemma accepted_chunks `{Host} (raw : gmap (list N) FormDataEntryValue) :
  (forall f : text_field,
     exists v, raw !! js (field_name f) = Some (FString v)
               /\ sanitizePlainText v (maxLength f) <> []) ->
  (exists d, raw !! js "date" = Some (FString d) /\ is_Some (new_Date d)) ->
  (exists t, raw !! js "time" = Some (FString t) /\ is_Some (normalizeTime t)) ->
  (exists m, raw !! js "mode" = Some (FString m)
             /\ In (toLowerCase (trim m)) (js <$> ALLOWED_MODES)) ->
  (forall field, field = "agenda" \/ field = "tags" ->
     exists a, raw !! js field = Some (FString a) /\ is_Some (parseStringArray a)) ->
  (exists i u, raw !! js "image" = Some (FString i)
               /\ URL_parse i = Some u /\ protocol u = js "https:"
               /\ href u <> []) ->
  errors (validateAndSanitizeEvent raw) = [].
Proof.
  intros Htext (d & Hd & [t Ht]) (tm & Htm & [o Ho]) (m & Hm & Hin) Harray
    (i & u & Hi & Hu & Hp & Hne).
  assert (Htexts : forall f, (text_step raw ([], ∅) f).1 = []).
  { intros f. destruct (Htext f) as (v & Hv & Hclean).
    unfold text_step. rewrite Hv.
    by destruct (sanitizePlainText v (maxLength f)). }
  assert (Harrays : forall field, field = "agenda" \/ field = "tags" ->
            (array_step field raw ([], ∅)).1 = []).
  { intros field Hf. destruct (Harray field Hf) as (a & Ha & [l Hl]).
    rewrite array_step_result, Ha.
    destruct a as [|c s]; [by vm_compute in Hl|]. by rewrite Hl. }
  rewrite errors_decompose, !Htexts, !Harrays by tauto.
  rewrite (date_step_result raw _ d Hd), Ht.
  unfold time_step. rewrite Htm, Ho.
  destruct (normalizeTime_form _ _ Ho) as (h & mi & _ & _ & Hform).
  assert (o <> []) as Ho'.
  { intros ->. apply (f_equal length) in Hform.
    rewrite length_app, digits_length in Hform. simpl in Hform. lia. }
  destruct o as [|c o]; [done|].
  unfold mode_step. rewrite Hm.
  assert (existsb (fun a => jsstring_eqb (js a) (toLowerCase (trim m))) ALLOWED_MODES
          = true) as ->.
  { apply in_map_iff in Hin as (a & Ha & Hin).
    apply existsb_exists. exists a. split; [done|]. by apply jsstring_eqb_eq. }
  unfold image_step, ensureSecureImageUrl. rewrite Hi. cbn [string_or_empty].
  rewrite Hu, Hp.
  assert (jsstring_eqb (js "https:") (js "https:") = true) as ->
    by by apply jsstring_eqb_eq.
  by destruct (href u).
Qed.

(** X14.  The validator returns a record exactly when every check passes:
    each text field is a string whose sanitized form is not empty, the
    date is a string that parses to a time value, the time is a string
    that [normalizeTime] accepts, the mode is a string that, trimmed and in
    lower case, is one of the allowed words, the agenda and the tags are
    strings that [parseStringArray] accepts, and the image is a string that
    parses to a URL whose protocol is https. *)
Theorem validate_accepts_iff `{Host} (raw : gmap (list N) FormDataEntryValue) :
  is_Some (sanitizedEvent (validateAndSanitizeEvent raw))
  <-> (forall f : text_field,
         exists v, raw !! js (field_name f) = Some (FString v)
                   /\ sanitizePlainText v (maxLength f) <> [])
      /\ (exists d, raw !! js "date" = Some (FString d) /\ is_Some (new_Date d))
      /\ (exists t, raw !! js "time" = Some (FString t) /\ is_Some (normalizeTime t))
      /\ (exists m, raw !! js "mode" = Some (FString m)
                    /\ In (toLowerCase (trim m)) (js <$> ALLOWED_MODES))
      /\ (forall field, field = "agenda" \/ field = "tags" ->
            exists a, raw !! js field = Some (FString a)
                      /\ is_Some (parseStringArray a))
      /\ (exists i u, raw !! js "image" = Some (FString i)
                      /\ URL_parse i = Some u /\ protocol u = js "https:"
                      /\ href u <> []).
Proof.
  split.
  - intros [record Hr].
    destruct (validate_returns raw record Hr) as (_ & e & _ & Hok).
    destruct Hok as (Htext & Hdate & Htime & Hmode & Hagenda & Htags & Himage).
    repeat split.
    + intros f. destruct (Htext f) as ((Hne & _) & v & Hv & Heq).
      exists v. split; [done|]. by rewrite <- Heq.
    + destruct Hdate as (d & t & Hd & Ht & _). exists d. split; [done | by exists t].
    + destruct Htime as (t & h & m & Ht & Hn & _). exists t. split; [done | by eexists].
    + destruct Hmode as (m & a & Hm & Hin & Hlow & _). exists m. split; [done|].
      rewrite Hlow. by apply in_map.
    + intros field [-> | ->].
      * destruct Hagenda as (_ & a & Ha & Hp). exists a. split; [done | by eexists].
      * destruct Htags as (_ & a & Ha & Hp). exists a. split; [done | by eexists].
    + destruct Himage as (i & u & Hi & Hu & Hp & _ & Hne). by exists i, u.
  - intros (Htext & Hdate & Htime & Hmode & Harray & Himage).
    destruct (validate_accepts raw) as [record Hr]; [|by exists record].
    by apply accepted_chunks.
Qed.

(** ** The calls of the POST handler *)

Lemma field_name_not_image f : js "image" <> js (field_name f).
Proof. by destruct f. Qed.

Lemma FormData_get_app name fd1 fd2 :
  FormData_get name (fd1 ++ fd2)
  = match FormData_get name fd1 with
    | Some v => Some v
    | None => FormData_get name fd2
    end.
Proof.
  induction fd1 as [|[k v] fd1 IH]; [done|]. simpl.
  by destruct (jsstring_eqb k name).
Qed.

Lemma fromEntries_foldl (fd : FormData) (o : gmap (list N) FormDataEntryValue)
    (name : list N) :
  foldl (fun o kv => <[kv.1 := kv.2]> o) o fd !! name
  = match FormData_get name (reverse fd) with
    | Some v => Some v
    | None => o !! name
    end.
Proof.
  revert o. induction fd as [|[k v] fd IH]; intros o; [done|].
  cbn [foldl]. rewrite IH, reverse_cons, FormData_get_app. cbn [FormData_get fst snd].
  destruct (FormData_get name (reverse fd)); [done|].
  destruct (jsstring_eqb k name) eqn:Hk.
  - apply jsstring_eqb_eq in Hk as ->. by rewrite lookup_insert_eq.
  - rewrite lookup_insert_ne; [done|]. intros ->.
    assert (jsstring_eqb name name = true) by by apply jsstring_eqb_eq.
    congruence.
Qed.

(** X6.  When a form names a field more than once, the object the
    validator is given holds the last entry of that name, where
    [formData.get], which the handler uses for the image file and for the
    tags and agenda it parses, returns the first. *)
Theorem fromEntries_last (fd : FormData) (name : list N) :
  fromEntries fd !! name = FormData_get name (reverse fd)
  /\ (forall v, FormData_get name fd = Some v ->
        exists fd1 fd2, fd = fd1 ++ (name, v) :: fd2
                        /\ FormData_get name fd1 = None).
Proof.
  split.
  - unfold fromEntries. rewrite fromEntries_foldl.
    by destruct (FormData_get name (reverse fd)).
  - induction fd as [|[k w] fd IH]; intros v; [done|]. simpl.
    destruct (jsstring_eqb k name) eqn:Hk.
    + apply jsstring_eqb_eq in Hk as ->. intros [= ->]. by exists [], fd.
    + intros Hv. destruct (IH v Hv) as (fd1 & fd2 & -> & Hnone).
      exists ((k, w) :: fd1), fd2. split; [done|]. simpl. by rewrite Hk.
Qed.

Ltac early_reply :=
  left; split; [reflexivity|]; eexists _, _;
  split; [reflexivity|]; split; [simpl; tauto | done].

(** What the handler does, case by case: the calls it makes and what it
    answers. *)
Lemma POST_cases `{Host} `{Services} (formData : FormData) :
  (POST_calls formData = [CallConnect]
   /\ exists st msg,
        POST formData = reply (respond st msg)
        /\ In (st, msg)
              [(500, "Event Creation Failed");
               (400, "Image file is required");
               (400, "Invalid file type. Only images are allowed");
               (400, "File size exceeds 5MB limit")]
        /\ (connectDB = false -> st = 500))
  \/ exists file tags agenda,
       connectDB = true
       /\ FormData_get (js "image") formData = Some (FFile file)
       /\ JSON_parse (entry_to_string (FormData_get (js "tags") formData)) = Some tags
       /\ JSON_parse (entry_to_string (FormData_get (js "agenda") formData)) = Some agenda
       /\ In (file_type file) (js <$> allowedTypes)
       /\ file_size file <= maxSize
       /\ ((upload file = None
            /\ POST_calls formData = [CallConnect; CallUpload file]
            /\ POST formData = reply (respond 500 "Event Creation Failed"))
           \/ exists secure_url,
                upload file = Some secure_url
                /\ let r := validateAndSanitizeEvent
                              (<[js "image" := FString secure_url]> (fromEntries formData)) in
                   (sanitizedEvent r = None
                    /\ POST_calls formData = [CallConnect; CallUpload file]
                    /\ POST formData
                       = reply {| status := 400; message := "Validation failed";
                                  body_errors := errors r |})
                   \/ exists record,
                        sanitizedEvent r = Some record
                        /\ let doc := <["agenda" := agenda]> (<["tags" := tags]> record) in
                           POST_calls formData
                           = [CallConnect; CallUpload file; CallCreate doc]
                           /\ POST formData
                              = {| created := Some doc;
                                   response :=
                                     if Event_create doc
                                     then respond 201 "Event Created Successfully"
                                     else respond 500 "Event Creation Failed" |}).
Proof.
  unfold POST, POST_calls.
  set (ptags := JSON_parse (entry_to_string (FormData_get (js "tags") formData))).
  set (pagenda := JSON_parse (entry_to_string (FormData_get (js "agenda") formData))).
  destruct connectDB eqn:Hc; cbn [negb]; [|early_reply].
  destruct (FormData_get (js "image") formData) as [[[|c s]|file]|];
    try early_reply.
  - destruct ptags, pagenda; early_reply.
  - destruct ptags as [tags|]; [|early_reply].
    destruct pagenda as [agenda|]; [|early_reply].
    destruct (existsb _ allowedTypes) eqn:Htype; cbn [negb]; [|early_reply].
    destruct (maxSize <? file_size file) eqn:Hsize; [early_reply|].
    right. exists file, tags, agenda.
    apply Z.ltb_ge in Hsize.
    apply existsb_exists in Htype as (t & Hin & Ht).
    apply jsstring_eqb_eq in Ht.
    repeat split; try done; [rewrite <- Ht; by apply in_map|].
    destruct (upload file) as [secure_url|]; [|by left].
    right. exists secure_url. split; [done|]. cbv zeta.
    destruct (sanitizedEvent _) as [record|] eqn:Hr; [|by left].
    right. by exists record.
Qed.

(** X7.  The image is uploaded only after the connection is made, only
    when the form's first image entry is a file of one of the four allowed
    types and of at most 5 MB, and only when the tags and the agenda entries
    are JSON texts.  It is uploaded once, and before the submission is
    validated: no call follows it but the one that creates the event. *)
Theorem POST_upload_guarded `{Host} `{Services} (formData : FormData) (file : File) :
  In (CallUpload file) (POST_calls formData) ->
  connectDB = true
  /\ FormData_get (js "image") formData = Some (FFile file)
  /\ In (file_type file)
        [js "image/jpeg"; js "image/png"; js "image/webp"; js "image/gif"]
  /\ file_size file <= 5242880
  /\ is_Some (JSON_parse (entry_to_string (FormData_get (js "tags") formData)))
  /\ is_Some (JSON_parse (entry_to_string (FormData_get (js "agenda") formData)))
  /\ (POST_calls formData = [CallConnect; CallUpload file]
      \/ exists doc, POST_calls formData = [CallConnect; CallUpload file; CallCreate doc]).
Proof.
  intros Hin.
  destruct (POST_cases formData)
    as [(Hcalls & _)|(file' & tags & agenda & Hc & Hfile & Htags & Hagenda & Htype & Hsize & Hrest)].
  { rewrite Hcalls in Hin. by destruct Hin as [?|[]]. }
  assert (Hcalls : POST_calls formData = [CallConnect; CallUpload file']
      \/ exists doc, POST_calls formData = [CallConnect; CallUpload file'; CallCreate doc]).
  { destruct Hrest as [(_ & Hcalls & _)|(url & _ & [(_ & Hcalls & _)|(record & _ & Hcalls & _)])];
      eauto. }
  assert (file' = file) as ->.
  { destruct Hcalls as [Hcalls|[doc Hcalls]]; rewrite Hcalls in Hin.
    - by destruct Hin as [?|[[= ->]|[]]].
    - by destruct Hin as [?|[[= ->]|[?|[]]]]. }
  rewrite Htags, Hagenda. repeat split; try done; by eexists.
Qed.

Lemma POST_upload_guarded_witness :
  let formData := sample_form sample_tags sample_agenda in
  In (CallUpload sample_file) (@POST_calls plain_host sample_services formData)
  /\ FormData_get (js "image") formData = Some (FFile sample_file)
  /\ file_size sample_file <= 5242880.
Proof.
  assert (Hin : In (CallUpload sample_file)
                  (@POST_calls plain_host sample_services
                     (sample_form sample_tags sample_agenda)))
    by (right; left; reflexivity).
  split; [exact Hin|].
  destruct (@POST_upload_guarded plain_host sample_services _ _ Hin)
    as (_ & Hfile & _ & Hsize & _).
  by split.
Defined.

(** X8.  A submission the validator rejects has had its image uploaded
    already.  The answer "Validation failed" is given with status 400 and
    the validator's errors, of which there is at least one; by then the
    handler has connected and uploaded the file, and it creates no
    event. *)
Theorem POST_validation_after_upload `{Host} `{Services} (formData : FormData) :
  message (response (POST formData)) = "Validation failed" ->
  exists file secure_url,
    POST_calls formData = [CallConnect; CallUpload file]
    /\ upload file = Some secure_url
    /\ status (response (POST formData)) = 400
    /\ body_errors (response (POST formData))
       = errors (validateAndSanitizeEvent
                   (<[js "image" := FString secure_url]> (fromEntries formData)))
    /\ body_errors (response (POST formData)) <> []
    /\ created (POST formData) = None.
Proof.
  intros Hmsg.
  destruct (POST_cases formData)
    as [(_ & st & msg & Hpost & Hin & _)|(file & tags & agenda & _ & _ & _ & _ & _ & _ & Hrest)].
  { rewrite Hpost in Hmsg. cbn in Hmsg. subst msg.
    simpl in Hin. by destruct Hin as [?|[?|[?|[?|[]]]]]. }
  destruct Hrest as [(_ & _ & Hpost)|(url & Hup & [(Hnone & Hcalls & Hpost)|(record & _ & _ & Hpost)])].
  - by rewrite Hpost in Hmsg.
  - exists file, url. rewrite Hpost. cbn [reply response created status body_errors].
    repeat split; try done.
    intros Herr.
    destruct (validate_record_ok (<[js "image" := FString url]> (fromEntries formData)))
      as [(e & Hst & _)|Hne].
    + unfold validateAndSanitizeEvent in Hnone. cbv zeta in Hnone, Hst.
      cbn [sanitizedEvent] in Hnone. by rewrite Hst in Hnone.
    + unfold validateAndSanitizeEvent in Herr. cbv zeta in Herr, Hne.
      cbn [errors] in Herr. done.
  - rewrite Hpost in Hmsg. cbn [response] in Hmsg. by destruct (Event_create _).
Qed.

(** A form without a title. *)
Lemma POST_validation_after_upload_witness :
  let formData := tail (sample_form sample_tags sample_agenda) in
  message (response (@POST plain_host sample_services formData)) = "Validation failed"
  /\ exists file secure_url,
       @POST_calls plain_host sample_services formData
       = [CallConnect; CallUpload file]
       /\ @upload sample_services file = Some secure_url
       /\ status (response (@POST plain_host sample_services formData)) = 400
       /\ body_errors (response (@POST plain_host sample_services formData))
          = errors (@validateAndSanitizeEvent plain_host
                      (<[js "image" := FString secure_url]> (fromEntries formData)))
       /\ body_errors (response (@POST plain_host sample_services formData)) <> []
       /\ created (@POST plain_host sample_services formData) = None.
Proof.
  split; [vm_compute; reflexivity|].
  apply (@POST_validation_after_upload plain_host sample_services).
  vm_compute; reflexivity.
Defined.

Lemma POST_created_201 `{Host} `{Services} (formData : FormData) :
  status (response (POST formData)) = 201 ->
  exists doc, created (POST formData) = Some doc.
Proof.
  destruct (POST_cases formData)
    as [(_ & st & msg & Hpost & Hin & _)
       |(file & tags & agenda & _ & _ & _ & _ & _ & _ & Hrest)].
  { rewrite Hpost. cbn. intros ->. simpl in Hin.
    by destruct Hin as [?|[?|[?|[?|[]]]]]. }
  destruct Hrest as [(_ & _ & Hpost)|(url & Hup & [(_ & _ & Hpost)|(record & Hr & _ & Hpost)])];
    rewrite Hpost; try done.
  cbn. eauto.
Qed.

(** X9.  An event is created only as the third and last call, after the
    connection and the upload.  The document it is created with holds, for
    each text field, the sanitized form of the string submitted under its
    name, and for the image the serialization of the URL the upload
    returned, whose protocol is https: what the form gives as image text
    does not reach it. *)
Theorem POST_creates_validated `{Host} `{Services} (formData : FormData)
    (doc : gmap string value) :
  created (POST formData) = Some doc ->
  exists file secure_url u,
    POST_calls formData = [CallConnect; CallUpload file; CallCreate doc]
    /\ upload file = Some secure_url
    /\ URL_parse secure_url = Some u
    /\ protocol u = js "https:"
    /\ doc !! "image" = Some (VString (href u))
    /\ forall f : text_field,
         exists rawValue,
           fromEntries formData !! js (field_name f) = Some (FString rawValue)
           /\ doc !! field_name f
              = Some (VString (sanitizePlainText rawValue (maxLength f)))
           /\ sanitizePlainText rawValue (maxLength f) <> [].
Proof.
  intros Hdoc.
  destruct (POST_cases formData)
    as [(_ & st & msg & Hpost & _)|(file & tags & agenda & _ & _ & _ & _ & _ & _ & Hrest)];
    [by rewrite Hpost in Hdoc|].
  destruct Hrest as [(_ & _ & Hpost)|(url & Hup & [(_ & _ & Hpost)|(record & Hr & Hcalls & Hpost)])];
    try (by rewrite Hpost in Hdoc).
  cbv zeta in Hcalls, Hpost. rewrite Hpost in Hdoc. cbn [created] in Hdoc.
  injection Hdoc as <-.
  destruct (validate_returns _ _ Hr) as (_ & e & -> & Hok).
  destruct Hok as (Htext & _ & _ & _ & _ & _ & Himage).
  destruct Himage as (rawImage & u & Hraw & Hu & Hp & Hi & _).
  rewrite lookup_insert_eq in Hraw. injection Hraw as <-.
  exists file, url, u. repeat split; try done.
  - rewrite !lookup_insert_ne by done.
    transitivity (Some (VString (image e))); [done | by rewrite Hi].
  - intros f. destruct (Htext f) as ((Hne & _) & rawValue & Hrawf & Hv).
    rewrite lookup_insert_ne in Hrawf by apply field_name_not_image.
    exists rawValue. rewrite <- Hv. repeat split; try done.
    rewrite !lookup_insert_ne by (by destruct f). by destruct f.
Qed.

Lemma POST_creates_validated_witness :
  let formData := sample_form sample_tags sample_agenda in
  exists doc,
    created (@POST plain_host sample_services formData) = Some doc
    /\ exists file secure_url u,
         @POST_calls plain_host sample_services formData
         = [CallConnect; CallUpload file; CallCreate doc]
         /\ @upload sample_services file = Some secure_url
         /\ @URL_parse plain_host secure_url = Some u
         /\ protocol u = js "https:"
         /\ doc !! "image" = Some (VString (href u))
         /\ forall f : text_field,
              exists rawValue,
                fromEntries formData !! js (field_name f) = Some (FString rawValue)
                /\ doc !! field_name f
                   = Some (VString (sanitizePlainText rawValue (maxLength f)))
                /\ sanitizePlainText rawValue (maxLength f) <> [].
Proof.
  destruct (@POST_created_201 plain_host sample_services
              (sample_form sample_tags sample_agenda)) as [doc Hdoc];
    [vm_compute; reflexivity|].
  exists doc. split; [exact Hdoc|].
  exact (@POST_creates_validated plain_host sample_services _ doc Hdoc).
Defined.

(** X10.  The handler answers 201, 400 or 500.  It answers 201 exactly when
    it called [Event.create] and the call resolved; it lists errors only
    under "Validation failed"; and when the connection fails it answers 500
    having called nothing else. *)
Theorem POST_status `{Host} `{Services} (formData : FormData) :
  let r := response (POST formData) in
  In (status r) [201; 400; 500]
  /\ (status r = 201
      <-> exists doc, created (POST formData) = Some doc /\ Event_create doc = true)
  /\ (status r = 201 <-> message r = "Event Created Successfully")
  /\ (body_errors r <> [] -> message r = "Validation failed")
  /\ (connectDB = false -> POST_calls formData = [CallConnect] /\ status r = 500).
Proof.
  cbv zeta.
  destruct (POST_cases formData)
    as [(Hcalls & st & msg & Hpost & Hin & Hconn)
       |(file & tags & agenda & Hc & _ & _ & _ & _ & _ & Hrest)].
  { rewrite Hpost. cbn [reply respond response created status message body_errors].
    simpl in Hin.
    destruct Hin as [[= <- <-]|[[= <- <-]|[[= <- <-]|[[= <- <-]|[]]]]];
      (split; [simpl; tauto|];
       split; [split; [done | by intros (doc & ? & _)]|];
       split; [done|]; split; [done|];
       intros Hf; split; [done | by apply Hconn]). }
  destruct Hrest as [(_ & _ & Hpost)|(url & Hup & [(_ & _ & Hpost)|(record & Hr & _ & Hpost)])];
    rewrite Hpost; cbv zeta;
    cbn [reply respond response created status message body_errors].
  - split; [simpl; tauto|].
    split; [split; [done | by intros (doc & ? & _)]|].
    split; [done|]. split; [done|]. congruence.
  - split; [simpl; tauto|].
    split; [split; [done | by intros (doc & ? & _)]|].
    split; [done|]. split; [done|]. congruence.
  - destruct (Event_create _) eqn:Hcreate;
      cbn [respond status message body_errors].
    + split; [simpl; tauto|].
      split; [split; [intros _; eexists; by split | done]|].
      split; [done|]. split; [done|]. congruence.
    + split; [simpl; tauto|].
      split; [split; [done | intros (doc & [= <-] & Hd); congruence]|].
      split; [done|]. split; [done|]. congruence.
Qed.

(** ** The event of a slug *)

Lemma split_nonempty sep s : split sep s <> [].
Proof.
  induction s as [|c s IH]; simpl; [done|].
  destruct (cu_eqb c sep); [done|]. by destruct (split sep s).
Qed.

Lemma hyphen_not_slug_char : SlugRoute.is_slug_char SlugRoute.HYPHEN = false.
Proof. reflexivity. Qed.

Lemma slug_tail_split b s :
  SlugRoute.slug_tail b s = true
  <-> match split SlugRoute.HYPHEN s with
      | p :: ps =>
          (b = true \/ p <> [])
          /\ Forall (fun c => SlugRoute.is_slug_char c = true) p
          /\ Forall slug_word ps
      | [] => False
      end.
Proof.
  revert b. induction s as [|c s IH]; intros b.
  - simpl. split; [intros ->; auto | by intros [[?|?] _]].
  - cbn [SlugRoute.slug_tail split]. unfold cu_eqb.
    destruct (c =? SlugRoute.HYPHEN)%N eqn:Hc.
    + apply N.eqb_eq in Hc as ->. rewrite hyphen_not_slug_char.
      cbn [andb]. destruct b.
      * rewrite IH. pose proof (split_nonempty SlugRoute.HYPHEN s) as Hne.
        destruct (split SlugRoute.HYPHEN s) as [|p ps]; [done|].
        unfold slug_word. rewrite Forall_cons.
        split; [intros ([?|?] & ? & ?); [done|auto] | intros (_ & _ & (? & ?) & ?); auto].
      * split; [done | by intros [[?|?] _]].
    + cbn [andb]. pose proof (split_nonempty SlugRoute.HYPHEN s) as Hne.
      destruct (SlugRoute.is_slug_char c) eqn:Hs.
      * rewrite IH.
        destruct (split SlugRoute.HYPHEN s) as [|p ps]; [done|].
        rewrite Forall_cons.
        split; [intros (_ & ? & ?); auto | intros (_ & (_ & ?) & ?); auto].
      * destruct (split SlugRoute.HYPHEN s) as [|p ps]; [done|].
        rewrite Forall_cons. split; [done|].
        intros (_ & (Hc' & _) & _). congruence.
Qed.

(** X11.  The slug pattern accepts exactly the texts whose pieces between
    hyphens are all non-empty runs of the lower-case letters a to z and
    the digits: no other character, no hyphen at either end, no two
    hyphens in a row, and not the empty text. *)
Theorem slugRegex_test_spec (slug : list N) :
  SlugRoute.slugRegex_test slug = true
  <-> Forall slug_word (split SlugRoute.HYPHEN slug).
Proof.
  unfold SlugRoute.slugRegex_test. rewrite slug_tail_split.
  pose proof (split_nonempty SlugRoute.HYPHEN slug).
  destruct (split SlugRoute.HYPHEN slug) as [|p ps]; [done|].
  unfold slug_word. rewrite Forall_cons.
  split; [intros ([?|?] & ? & ?); [done|auto] | intros ((? & ?) & ?); auto].
Qed.

Example slugRegex_test_samples :
  map SlugRoute.slugRegex_test
    [js "rocq-meetup-2024"; js "a"; js "2024"; js ""; js "-a"; js "a-";
     js "a--b"; js "Rocq"; js "a b"; js "a_b"; js "a-b-c"]
  = [true; true; true; false; false; false; false; false; false; false; true].
Proof. reflexivity. Qed.

Lemma slug_tail_chars b s :
  SlugRoute.slug_tail b s = true ->
  Forall (fun c => SlugRoute.is_slug_char c = true \/ c = SlugRoute.HYPHEN) s.
Proof.
  revert b. induction s as [|c s IH]; intros b; [constructor|].
  cbn [SlugRoute.slug_tail].
  destruct (SlugRoute.is_slug_char c) eqn:Hs.
  - intros Hr. constructor; [by left | by eapply IH].
  - destruct (c =? SlugRoute.HYPHEN)%N eqn:Hc; [|done].
    apply N.eqb_eq in Hc as ->. destruct b; [|done]. cbn [andb].
    intros Hr. constructor; [by right | by eapply IH].
Qed.

Lemma starts_with_spec needle s :
  SlugRoute.starts_with needle s = true <-> exists b, s = needle ++ b.
Proof.
  revert s. induction needle as [|c needle IH]; intros s.
  - simpl. split; [by exists s | done].
  - destruct s as [|d s]; simpl.
    + split; [done | by intros [b ?]].
    + unfold cu_eqb. rewrite andb_true_iff, N.eqb_eq, IH.
      split; [intros [-> [b ->]]; by exists b | intros [b [= -> ->]]; eauto].
Qed.

(** [includes] finds the needle exactly when the text holds it. *)
Lemma includes_text_spec needle s :
  SlugRoute.includes_text needle s = true <-> exists a b, s = a ++ needle ++ b.
Proof.
  induction s as [|d s IH].
  - cbn [SlugRoute.includes_text]. rewrite orb_false_r, starts_with_spec.
    split; [intros [b ->]; by exists [], b|].
    intros (a & b & Hs). destruct a; [by exists b|done].
  - cbn [SlugRoute.includes_text]. rewrite orb_true_iff, starts_with_spec, IH.
    split.
    + intros [[b ->]|(a & b & ->)]; [by exists [], b | by exists (d :: a), b].
    + intros ([|x a] & b & Hs); [left; by exists b|].
      right. injection Hs as -> ->. by exists a, b.
Qed.

(** X12.  The handler calls the store only for a slug of the pattern:
    [findOne] is called with the slug of the request and no other, and
    then the slug is not empty and holds nothing but lower-case letters,
    digits and hyphens.  A slug outside the pattern is answered 400 with no
    call at all. *)
Theorem GET_slug_store_calls `{SlugRoute.Store} (slug : list N) :
  (forall q, In (SlugRoute.CallFindOne q) (SlugRoute.calls (SlugRoute.GET slug)) ->
     q = slug /\ slug <> []
     /\ Forall (fun c => SlugRoute.is_slug_char c = true \/ c = SlugRoute.HYPHEN) slug
     /\ Forall slug_word (split SlugRoute.HYPHEN slug))
  /\ (SlugRoute.slugRegex_test slug = false ->
      SlugRoute.calls (SlugRoute.GET slug) = []
      /\ SlugRoute.status (SlugRoute.GET slug) = 400
      /\ SlugRoute.event (SlugRoute.GET slug) = None).
Proof.
  unfold SlugRoute.GET. split.
  - intros q. destruct slug as [|c slug]; [by cbn|]. cbn [is_empty].
    destruct (SlugRoute.slugRegex_test (c :: slug)) eqn:Hok; [|by cbn].
    cbn [negb].
    assert (Hin : In (SlugRoute.CallFindOne q)
                    [SlugRoute.CallConnectDB; SlugRoute.CallFindOne (c :: slug)] ->
                  q = c :: slug) by (intros [?|[[= <-]|[]]]; done).
    intros Hq. assert (q = c :: slug) as ->.
    { destruct SlugRoute.connectDB as [[m|]|].
      - unfold SlugRoute.failed in Hq.
        destruct (SlugRoute.includes_text _ m); by destruct Hq as [?|[]].
      - by destruct Hq as [?|[]].
      - destruct (SlugRoute.findOne (c :: slug)) as [[m|]|[ev|]];
          unfold SlugRoute.failed in Hq;
          try destruct (SlugRoute.includes_text _ m); by apply Hin. }
    repeat split; [done | by eapply slug_tail_chars | by apply slugRegex_test_spec].
  - intros Hbad. destruct slug as [|c slug]; [done|]. cbn [is_empty].
    by rewrite Hbad.
Qed.

Lemma GET_slug_store_calls_witness :
  In (SlugRoute.CallFindOne (js "rocq-meetup-2024"))
     (SlugRoute.calls (@SlugRoute.GET SlugRoute.sample_store (js "rocq-meetup-2024")))
  /\ Forall slug_word (split SlugRoute.HYPHEN (js "rocq-meetup-2024")).
Proof.
  assert (Hin : In (SlugRoute.CallFindOne (js "rocq-meetup-2024"))
     (SlugRoute.calls (@SlugRoute.GET SlugRoute.sample_store (js "rocq-meetup-2024"))))
    by (right; left; reflexivity).
  split; [exact Hin|].
  destruct (@GET_slug_store_calls SlugRoute.sample_store (js "rocq-meetup-2024"))
    as [Hcalls _].
  by destruct (Hcalls _ Hin) as (_ & _ & _ & Hw).
Defined.

Lemma failed_status calls error :
  SlugRoute.calls (SlugRoute.failed calls error) = calls
  /\ SlugRoute.event (SlugRoute.failed calls error) = None
  /\ (SlugRoute.status (SlugRoute.failed calls error) = 503
      /\ (exists m a b, error = SlugRoute.ThrownError m /\ m = a ++ js "connect" ++ b)
      \/ SlugRoute.status (SlugRoute.failed calls error) = 500
         /\ ~ (exists m a b, error = SlugRoute.ThrownError m /\ m = a ++ js "connect" ++ b)).
Proof.
  unfold SlugRoute.failed. destruct error as [m|].
  - destruct (SlugRoute.includes_text (js "connect") m) eqn:Hi.
    + repeat split. left. split; [done|].
      apply includes_text_spec in Hi as (a & b & Hm). by exists m, a, b.
    + repeat split. right. split; [done|].
      intros (m' & a & b & [= <-] & Hm).
      assert (SlugRoute.includes_text (js "connect") m = true) as Ht
        by (apply includes_text_spec; eauto).
      congruence.
  - repeat split. right. split; [done|]. by intros (m & a & b & ? & _).
Qed.

(** X13.  The answers of the handler.  200 is given exactly when the slug
    is of the pattern, the connection is made and the store returns a
    document, and only then does the answer carry an event: the one the
    store returned.  404 is given exactly when the store returns none, 400
    exactly when the slug is outside the pattern.  What is thrown is
    answered 503 exactly when it is an [Error] whose message holds the text
    connect, wherever it was thrown, and 500 otherwise. *)
Theorem GET_slug_status `{SlugRoute.Store} (slug : list N) :
  let r := SlugRoute.GET slug in
  let thrown error :=
    SlugRoute.connectDB = Some error
    \/ SlugRoute.connectDB = None /\ SlugRoute.findOne slug = inl error in
  let connect_error error :=
    exists m a b, error = SlugRoute.ThrownError m /\ m = a ++ js "connect" ++ b in
  (SlugRoute.status r = 200
   <-> SlugRoute.slugRegex_test slug = true /\ SlugRoute.connectDB = None
       /\ exists ev, SlugRoute.findOne slug = inr (Some ev))
  /\ (forall ev, SlugRoute.event r = Some ev ->
        SlugRoute.status r = 200 /\ SlugRoute.findOne slug = inr (Some ev))
  /\ (SlugRoute.status r = 404
      <-> SlugRoute.slugRegex_test slug = true /\ SlugRoute.connectDB = None
          /\ SlugRoute.findOne slug = inr None)
  /\ (SlugRoute.status r = 400 <-> SlugRoute.slugRegex_test slug = false)
  /\ (SlugRoute.status r = 503
      <-> SlugRoute.slugRegex_test slug = true
          /\ exists error, thrown error /\ connect_error error)
  /\ (SlugRoute.status r = 500
      <-> SlugRoute.slugRegex_test slug = true
          /\ exists error, thrown error /\ ~ connect_error error).
Proof.
  cbv zeta. unfold SlugRoute.GET.
  destruct slug as [|c slug].
  { cbn. repeat split; try done; try (by intros [? _]); by intros [_ [? _]]. }
  cbn [is_empty].
  destruct (SlugRoute.slugRegex_test (c :: slug)) eqn:Hok; cbn [negb].
  2:{ cbn. repeat split; try done; try (by intros [? _]); by intros [_ [? _]]. }
  destruct SlugRoute.connectDB as [error|] eqn:Hc.
  { destruct (failed_status [SlugRoute.CallConnectDB] error)
      as (_ & He & [[Hs Herr]|[Hs Herr]]); rewrite He, Hs.
    all: repeat split; try done; try (by intros (_ & ? & _)).
    all: try (by intros (_ & e' & [[= <-]|[? _]] & ?)).
    all: exists error; split; [by left | done]. }
  destruct (SlugRoute.findOne (c :: slug)) as [error|[ev|]] eqn:Hf.
  - destruct (failed_status [SlugRoute.CallConnectDB; SlugRoute.CallFindOne (c :: slug)] error)
      as (_ & He & [[Hs Herr]|[Hs Herr]]); rewrite He, Hs.
    all: repeat split; try done; try (by intros (_ & _ & ? & ?)); try (by intros (_ & _ & ?)).
    all: try (by intros (_ & e' & [?|[_ [= <-]]] & ?)).
    all: exists error; split; [by right | done].
  - cbn. repeat split; try done; try (by intros (_ & _ & ?)).
    all: try (by exists ev); try congruence.
    all: try (by intros (_ & e' & [?|[_ ?]] & _)).
  - cbn. repeat split; try done; try (by intros (_ & _ & ? & ?)).
    all: try (by intros (_ & e' & [?|[_ ?]] & _)).

Qed.
